(** * mygit: the object store of cmd/mygit, embedded and verified

    The development follows cmd/mygit/helpers.go and cmd/mygit/main.go:
    [findNullByteIndex], [sha1Hash], [initCmd], [catFile] and [hashObject].
    Go strings are [string] (sequences of bytes), Go byte slices are
    [list byte]; a slice expression that Go checks at run time returns
    [option], [None] standing for the run-time panic.

    The commands run in a small monad over the file system, the standard
    output and the standard error; they end by returning, by [os.Exit]
    or by a panic.  From the libraries: [crypto/sha1] is SHA-1 as in
    FIPS 180, [fmt] the verbs [%x], [%d] and [%s], [os] the calls on
    names, [compress/zlib] an interface with one law.  The [flag]
    package is not modelled: a command starts from the value of its flag
    and the arguments that follow the flags. *)

From Stdlib Require Import ZArith Lia List.
From Stdlib.Strings Require Import Ascii String Byte.
From stdpp Require Import base option list strings gmap.

Import ListNotations.
Local Open Scope string_scope.
Local Open Scope list_scope.

(** ** Bytes and strings *)

Module Bytes.

Definition bytes := list byte.

(** [[]byte(s)] and [string(b)]. *)
Definition of_string (s : string) : bytes := list_byte_of_string s.
Definition to_string (b : bytes) : string := string_of_list_byte b.

(** [s[:n]] and [s[n:]] on a byte slice whose upper bound defaults to
    [len(s)]: Go panics unless [n <= len(s)]. *)
Definition slice_to (b : bytes) (n : nat) : option bytes :=
  if (n <=? length b)%nat then Some (firstn n b) else None.

Definition slice_from (b : bytes) (n : nat) : option bytes :=
  if (n <=? length b)%nat then Some (skipn n b) else None.

(** The same two expressions on a string. *)
Definition str_slice_to (s : string) (n : nat) : option string :=
  if (n <=? String.length s)%nat then Some (String.substring 0 n s) else None.

Definition str_slice_from (s : string) (n : nat) : option string :=
  if (n <=? String.length s)%nat
  then Some (String.substring n (String.length s - n) s) else None.

Definition is_nul (v : byte) : bool := Byte.eqb v x00.

End Bytes.
Export Bytes.

(** ** helpers.go *)

(** The loop [for i, v := range data { if v == 0 { return i } }] of
    [findNullByteIndex], started at index [i]: [Some i] is the early
    return, [None] is falling out of the loop. *)
Fixpoint range_find_nul (i : nat) (data : bytes) : option nat :=
  match data with
  | [] => None
  | v :: rest => if is_nul v then Some i else range_find_nul (S i) rest
  end.

(** [findNullByteIndex]: the first index holding a zero byte; when the
    loop finds none, [len(data)]. *)
Definition findNullByteIndex (data : bytes) : nat :=
  match range_find_nul 0 data with
  | Some i => i
  | None => length data
  end.

(** ** crypto/sha1 and fmt, as far as [sha1Hash] uses them *)

Module SHA1.

Local Open Scope Z_scope.

(** A [uint32] is a [Z] kept below [2^32]; every operation wraps. *)
Definition u32 (x : Z) : Z := x mod 2 ^ 32.
Definition add32 (a b : Z) : Z := u32 (a + b).
Definition not32 (a : Z) : Z := Z.lxor a (2 ^ 32 - 1).
Definition rotl32 (x : Z) (k : Z) : Z :=
  u32 (Z.lor (Z.shiftl x k) (Z.shiftr x (32 - k))).

Definition byte_to_Z (b : byte) : Z := Z.of_N (Byte.to_N b).
Definition byte_of_Z (z : Z) : byte :=
  match Byte.of_N (Z.to_N (z mod 256)) with
  | Some b => b
  | None => x00
  end.

(** [binary.BigEndian.PutUint32] and [PutUint64]. *)
Definition be32 (w : Z) : bytes :=
  [byte_of_Z (Z.shiftr w 24); byte_of_Z (Z.shiftr w 16);
   byte_of_Z (Z.shiftr w 8); byte_of_Z w].

Definition be64 (w : Z) : bytes :=
  be32 (Z.shiftr w 32) ++ be32 w.

(** The padding of [checkSum]: one byte [0x80], zero bytes up to 56
    modulo 64, then the length in bits as 64 bits. *)
Definition pad_len (len : nat) : nat :=
  if (len mod 64 <? 56)%nat then (56 - len mod 64)%nat
  else (64 + 56 - len mod 64)%nat.

Definition padding (len : nat) : bytes :=
  (byte_of_Z 128 :: repeat x00 (pad_len len - 1))
  ++ be64 (Z.shiftl (Z.of_nat len) 3 mod 2 ^ 64).

(** The message schedule of one 64-byte chunk. *)
Fixpoint words (n : nat) (p : bytes) : list Z :=
  match n, p with
  | S n', b0 :: b1 :: b2 :: b3 :: rest =>
      Z.lor (Z.lor (Z.lor (Z.shiftl (byte_to_Z b0) 24)
                          (Z.shiftl (byte_to_Z b1) 16))
                   (Z.shiftl (byte_to_Z b2) 8))
            (byte_to_Z b3)
      :: words n' rest
  | _, _ => []
  end.

(** [rw] holds the words computed so far, the latest first. *)
Fixpoint extend (n : nat) (rw : list Z) : list Z :=
  match n with
  | O => rw
  | S n' =>
      let tmp := Z.lxor (Z.lxor (Z.lxor (nth 2 rw 0) (nth 7 rw 0))
                                (nth 13 rw 0)) (nth 15 rw 0) in
      extend n' (rotl32 tmp 1 :: rw)
  end.

Definition schedule (chunk : bytes) : list Z :=
  rev (extend 64 (rev (words 16 chunk))).

Record state := State { h0 : Z; h1 : Z; h2 : Z; h3 : Z; h4 : Z }.

Definition init : state :=
  State 0x67452301 0xEFCDAB89 0x98BADCFE 0x10325476 0xC3D2E1F0.

Definition round (i : nat) (s : state) (w : Z) : state :=
  let '(State a b c d e) := s in
  let '(f, k) :=
    if (i <? 20)%nat then (Z.lor (Z.land b c) (Z.land (not32 b) d), 0x5A827999)
    else if (i <? 40)%nat then (Z.lxor (Z.lxor b c) d, 0x6ED9EBA1)
    else if (i <? 60)%nat
         then (Z.lor (Z.land (Z.lor b c) d) (Z.land b c), 0x8F1BBCDC)
    else (Z.lxor (Z.lxor b c) d, 0xCA62C1D6) in
  let t := add32 (add32 (add32 (add32 (rotl32 a 5) f) e) w) k in
  State t a (rotl32 b 30) c d.

Fixpoint rounds (i : nat) (s : state) (ws : list Z) : state :=
  match ws with
  | [] => s
  | w :: ws' => rounds (S i) (round i s w) ws'
  end.

Definition block (s : state) (chunk : bytes) : state :=
  let '(State a b c d e) := rounds 0 s (schedule chunk) in
  State (add32 (h0 s) a) (add32 (h1 s) b) (add32 (h2 s) c)
    (add32 (h3 s) d) (add32 (h4 s) e).

(** [for len(p) >= chunk { ...; p = p[chunk:] }], the number of turns
    given ahead. *)
Fixpoint blocks (n : nat) (s : state) (p : bytes) : state :=
  match n with
  | O => s
  | S n' => blocks n' (block s (firstn 64 p)) (skipn 64 p)
  end.

(** [sha1.Sum]: the 20 bytes of the digest. *)
Definition Sum (text : bytes) : bytes :=
  let p := text ++ padding (length text) in
  let s := blocks (length p / 64) init p in
  be32 (h0 s) ++ be32 (h1 s) ++ be32 (h2 s) ++ be32 (h3 s) ++ be32 (h4 s).

Definition Size : nat := 20.

End SHA1.

(** [fmt.Sprintf("%x", b)] on a byte array: two lower-case digits a byte,
    taken from the table ["0123456789abcdef"]. *)
Definition ldigits : string := "0123456789abcdef".

Definition hex_digit (n : N) : ascii :=
  match String.get (N.to_nat n) ldigits with
  | Some c => c
  | None => "0"%char
  end.

Fixpoint Sprintf_x (b : bytes) : string :=
  match b with
  | [] => EmptyString
  | c :: rest =>
      String (hex_digit (N.shiftr (Byte.to_N c) 4))
        (String (hex_digit (N.land (Byte.to_N c) 15)) (Sprintf_x rest))
  end.

(** [sha1Hash]: the SHA-1 digest of [text] in hexadecimal, as bytes. *)
Definition sha1Hash (text : bytes) : bytes :=
  let hash := Sprintf_x (SHA1.Sum text) in
  of_string hash.

(** [fmt.Sprintf("%d", n)] for a non-negative [int]: the digits are
    produced from the right, [for u >= 10 { ... u = u / 10 }], then the
    leading one. *)
Definition digit_char (d : N) : ascii := ascii_of_N (48 + d).

Fixpoint fmt_integer (fuel : nat) (u : N) (buf : string) : string :=
  match fuel with
  | O => buf
  | S fuel' =>
      if (10 <=? u)%N
      then fmt_integer fuel' (u / 10)%N (String (digit_char (u mod 10)%N) buf)
      else String (digit_char u) buf
  end.

Definition Sprintf_d (n : nat) : string :=
  fmt_integer (S n) (N.of_nat n) EmptyString.

(** The number of decimal digits of [n], counted by division. *)
Fixpoint count_digits (fuel : nat) (u : N) : nat :=
  match fuel with
  | O => 0
  | S fuel' => if (10 <=? u)%N then S (count_digits fuel' (u / 10)%N) else 1
  end.

Definition digits (n : nat) : nat := count_digits (S n) (N.of_nat n).

(** [[]byte(fmt.Sprintf("blob %d\x00%s", byteSize, fileContent))] with
    [byteSize := len(fileContent)]: the canonical form of a blob. *)
Definition blobContents (fileContent : bytes) : bytes :=
  let byteSize := length fileContent in
  of_string ("blob " ++ Sprintf_d byteSize
             ++ String Ascii.zero (to_string fileContent)).

(** ** The file system the commands run on

    A tree of directories and regular files under the working directory,
    keyed by the list of path components.  The working directory itself
    is the empty list and always a directory; [..] at the working
    directory stays there.  Modes and owners are left out: the only
    errors are those of the names ([ENOENT], [EEXIST], [ENOTDIR],
    [EISDIR]). *)

Module FS.

Inductive node :=
  | Dir
  | File (content : bytes).

Abbreviation path := (list string).

Inductive errno := ENOENT | EEXIST | ENOTDIR | EISDIR.

Definition strerror (e : errno) : string :=
  match e with
  | ENOENT => "no such file or directory"
  | EEXIST => "file exists"
  | ENOTDIR => "not a directory"
  | EISDIR => "is a directory"
  end.

(** [*fs.PathError]. *)
Record PathError := { Op : string; Path : string; Err : errno }.

Definition PathError_Error (e : PathError) : string :=
  Op e ++ " " ++ Path e ++ ": " ++ strerror (Err e).

(** [os.IsExist]. *)
Definition IsExist (e : PathError) : bool :=
  match Err e with
  | EEXIST => true
  | _ => false
  end.

(** The components of a path name, split at every ['/']; empty
    components are kept. *)
Fixpoint components (name : string) : list string :=
  match name with
  | EmptyString => [EmptyString]
  | String c rest =>
      if Ascii.eqb c "/" then EmptyString :: components rest
      else match components rest with
           | [] => [String c EmptyString]
           | h :: t => String c h :: t
           end
  end.

(** A trailing ['/'] does not count for [mkdir]. *)
Fixpoint strip_trailing (cs : list string) : list string :=
  match cs with
  | [] => []
  | c :: rest =>
      match strip_trailing rest with
      | [] => if String.eqb c EmptyString then [] else [c]
      | rest' => c :: rest'
      end
  end.

Definition is_dot (c : string) : bool :=
  String.eqb c EmptyString || String.eqb c ".".
Definition is_dotdot (c : string) : bool := String.eqb c "..".

(** Searching a directory: it has to exist and to be a directory. *)
Definition search (fs : gmap path node) (dir : path) : option errno :=
  match dir with
  | [] => None
  | _ => match fs !! dir with
         | Some Dir => None
         | Some (File _) => Some ENOTDIR
         | None => Some ENOENT
         end
  end.

Definition step (cur : path) (c : string) : path :=
  if is_dot c then cur
  else if is_dotdot c then removelast cur
  else cur ++ [c].

(** Path resolution from directory [cur]: every component is looked up
    in a directory that must be searchable. *)
Fixpoint walk (fs : gmap path node) (cur : path) (cs : list string)
  : errno + path :=
  match cs with
  | [] => inr cur
  | c :: rest =>
      match search fs cur with
      | Some e => inl e
      | None => walk fs (step cur c) rest
      end
  end.

(** The directory and the last component of a name that is to be
    created. *)
Definition walk_parent (fs : gmap path node) (cs : list string)
  : errno + (path * string) :=
  match rev cs with
  | [] => inl ENOENT
  | last :: rinit =>
      match walk fs [] (rev rinit) with
      | inl e => inl e
      | inr dir =>
          match search fs dir with
          | Some e => inl e
          | None => inr (dir, last)
          end
      end
  end.

(** [mkdir(2)]. *)
Definition mkdir (fs : gmap path node) (name : string)
  : errno + gmap path node :=
  if String.eqb name EmptyString then inl ENOENT else
  match strip_trailing (components name) with
  | [] => inl EEXIST
  | cs =>
  match walk_parent fs cs with
  | inl e => inl e
  | inr (dir, last) =>
      if is_dot last || is_dotdot last then inl EEXIST
      else match fs !! (dir ++ [last]) with
           | Some _ => inl EEXIST
           | None => inr (<[dir ++ [last] := Dir]> fs)
           end
  end
  end.

(** [open(2)] with [O_WRONLY|O_CREAT|O_TRUNC]: the file is created or
    emptied; the result names the open file. *)
Definition creat (fs : gmap path node) (name : string)
  : errno + (path * gmap path node) :=
  if String.eqb name EmptyString then inl ENOENT else
  match walk_parent fs (components name) with
  | inl e => inl e
  | inr (dir, last) =>
      if is_dot last || is_dotdot last then inl EISDIR
      else match fs !! (dir ++ [last]) with
           | Some Dir => inl EISDIR
           | _ => inr (dir ++ [last], <[dir ++ [last] := File []]> fs)
           end
  end.

(** [write(2)] at the end of an open file. *)
Definition append (fs : gmap path node) (fd : path) (data : bytes)
  : gmap path node :=
  match fs !! fd with
  | Some (File old) => <[fd := File (old ++ data)]> fs
  | _ => fs
  end.

(** [open(2)] for reading followed by reading to the end. *)
Definition read (fs : gmap path node) (name : string)
  : (string * errno) + bytes :=
  if String.eqb name EmptyString then inl ("open", ENOENT) else
  match walk fs [] (components name) with
  | inl e => inl ("open", e)
  | inr p =>
      match p with
      | [] => inl ("read", EISDIR)
      | _ => match fs !! p with
             | None => inl ("open", ENOENT)
             | Some Dir => inl ("read", EISDIR)
             | Some (File content) => inr content
             end
      end
  end.

End FS.

(** ** Errors, the process and its effects *)

(** The values of Go's [error] that reach the commands. *)
Inductive error :=
  | EPath (e : FS.PathError)
  | ErrUnexpectedEOF
  | ErrHeader
  | ErrDictionary
  | ErrChecksum
  | CorruptInputError (offset : nat).

Definition Error (e : error) : string :=
  match e with
  | EPath pe => FS.PathError_Error pe
  | ErrUnexpectedEOF => "unexpected EOF"
  | ErrHeader => "zlib: invalid header"
  | ErrDictionary => "zlib: invalid dictionary"
  | ErrChecksum => "zlib: invalid checksum"
  | CorruptInputError off =>
      "flate: corrupt input before offset " ++ Sprintf_d off
  end.

Definition IsExist (e : error) : bool :=
  match e with
  | EPath pe => FS.IsExist pe
  | _ => false
  end.

Module Proc.

(** What a command can see and change. *)
Record world := World {
  files : gmap FS.path FS.node;
  stdout : string;
  stderr : string
}.

(** How a command ends: it returns, it calls [os.Exit], or the run time
    panics on a slice or index out of range. *)
Inductive outcome (A : Type) :=
  | Returns (a : A) (w : world)
  | Exits (code : Z) (w : world)
  | Panics (w : world).
Arguments Returns {A} a w.
Arguments Exits {A} code w.
Arguments Panics {A} w.

Definition M (A : Type) : Type := world -> outcome A.

Definition ret {A} (a : A) : M A := fun w => Returns a w.

Definition bind {A B} (m : M A) (k : A -> M B) : M B :=
  fun w =>
    match m w with
    | Returns a w' => k a w'
    | Exits code w' => Exits code w'
    | Panics w' => Panics w'
    end.

Definition os_Exit {A} (code : Z) : M A := fun w => Exits code w.
Definition panic {A} : M A := fun w => Panics w.

(** A checked slice or index expression. *)
Definition checked {A} (o : option A) : M A :=
  match o with
  | Some a => ret a
  | None => panic
  end.

Definition newline : string := String (ascii_of_nat 10) EmptyString.

Definition Print (s : string) : M unit :=
  fun w => Returns tt (World (files w) (stdout w ++ s) (stderr w)).
Definition Println (s : string) : M unit := Print (s ++ newline).
Definition Fprintln_Stderr (s : string) : M unit :=
  fun w => Returns tt (World (files w) (stdout w) (stderr w ++ s ++ newline)).

Definition set_files (fs : gmap FS.path FS.node) (w : world) : world :=
  World fs (stdout w) (stderr w).

Definition path_error (op name : string) (e : FS.errno) : error :=
  EPath {| FS.Op := op; FS.Path := name; FS.Err := e |}.

Definition os_Mkdir (name : string) : M (option error) :=
  fun w =>
    match FS.mkdir (files w) name with
    | inl e => Returns (Some (path_error "mkdir" name e)) w
    | inr fs' => Returns None (set_files fs' w)
    end.

(** [os.Create]: the open file on success. *)
Definition os_Create (name : string) : M (error + FS.path) :=
  fun w =>
    match FS.creat (files w) name with
    | inl e => Returns (inl (path_error "open" name e)) w
    | inr (fd, fs') => Returns (inr fd) (set_files fs' w)
    end.

Definition File_Write (fd : FS.path) (data : bytes) : M (option error) :=
  fun w => Returns None (set_files (FS.append (files w) fd data) w).

(** [os.WriteFile]: open with create and truncate, write, close. *)
Definition os_WriteFile (name : string) (data : bytes) : M (option error) :=
  bind (os_Create name) (fun r =>
    match r with
    | inl e => ret (Some e)
    | inr fd => File_Write fd data
    end).

Definition os_ReadFile (name : string) : M (error + bytes) :=
  fun w =>
    match FS.read (files w) name with
    | inl (op, e) => Returns (inl (path_error op name e)) w
    | inr content => Returns (inr content) w
    end.

End Proc.
Export Proc.

Declare Scope proc_scope.
Delimit Scope proc_scope with proc.
Notation "x <- m ;; k" := (bind m (fun x => k))
  (at level 100, m at next level, right associativity) : proc_scope.
Notation "m ;; k" := (bind m (fun _ => k))
  (at level 100, right associativity) : proc_scope.
Local Open Scope proc_scope.

(** ** compress/zlib, as the commands use it

    [hashObject] hands the canonical bytes to a [zlib.Writer] and closes
    it; [catFile] opens a [zlib.Reader] on the bytes of the file and
    reads it to the end with [io.ReadAll].  The codec is an interface:
    [deflate] is what the writer has emitted once it is closed,
    [NewReader] checks the stream header, [ReadAll] returns the bytes
    decoded so far together with the error that stopped the reading,
    [None] for a clean end. *)
Class Zlib := {
  Reader : Type;
  deflate : bytes -> bytes;
  NewReader : bytes -> error + Reader;
  ReadAll : Reader -> bytes * option error
}.

(** The contract of the library: what the writer emits, the reader
    accepts and decodes to the bytes written, without error. *)
Class ZlibLaws (zl : Zlib) : Prop := {
  inflate_deflate : forall data : bytes,
    exists r, NewReader (deflate data) = inr r /\ ReadAll r = (data, None)
}.

(** A [zlib.Writer]: its destination and the bytes written to it. *)
Record Writer := { dst : FS.path; written : bytes }.

Section Commands.

Context {zl : Zlib}.

Definition NewWriter (fd : FS.path) : Writer :=
  {| dst := fd; written := [] |}.

Definition Writer_Write (zw : Writer) (p : bytes)
  : M (Writer * option error) :=
  ret ({| dst := dst zw; written := written zw ++ p |}, None).

Definition Writer_Close (zw : Writer) : M (option error) :=
  File_Write (dst zw) (deflate (written zw)).

(** *** main.go *)

(** The loop of [initCmd] over [foldersToCreate]. *)
Fixpoint create_folders (folders : list string) : M unit :=
  match folders with
  | [] => ret tt
  | folder :: rest =>
      err <- os_Mkdir folder ;;
      match err with
      | Some e =>
          if negb (IsExist e)
          then Fprintln_Stderr ("Failed to create folder '" ++ folder
                                ++ "': " ++ Error e) ;;
               os_Exit 1
          else create_folders rest
      | None => create_folders rest
      end
  end.

Definition headContent : bytes := of_string ("ref: refs/heads/main" ++ newline).

Definition initCmd : M unit :=
  let foldersToCreate := [".git/"; ".git/objects"; ".git/refs"] in
  create_folders foldersToCreate ;;
  let filesToCreate := ".git/HEAD" in
  err <- os_WriteFile filesToCreate headContent ;;
  match err with
  | Some e =>
      Fprintln_Stderr ("Failed to create HEAD: " ++ Error e) ;;
      os_Exit 1
  | None => Println "Initialized .git directory"
  end.

(** [fmt.Sprintf(".git/objects/%s/%s", dir, filename)]. *)
Definition object_file (dir filename : string) : string :=
  ".git/objects/" ++ dir ++ "/" ++ filename.

(** [fmt.Sprintf(".git/objects/%s", objectFolder)]. *)
Definition object_folder (dir : string) : string :=
  ".git/objects/" ++ dir.

(** [catFile], from the arguments left by the flag parser. *)
Definition catFile (pprint : bool) (args : list string) : M unit :=
  match args with
  | [] =>
      Fprintln_Stderr "usage: git cat-file [-p] <blob_sha>" ;;
      os_Exit 1
  | object :: _ =>
      dir <- checked (str_slice_to object 2) ;;
      filename <- checked (str_slice_from object 2) ;;
      let file := object_file dir filename in
      r <- os_ReadFile file ;;
      match r with
      | inl err =>
          Fprintln_Stderr ("Failed to read '" ++ file ++ "': " ++ Error err) ;;
          os_Exit 1
      | inr fileContents =>
          match NewReader fileContents with
          | inl err =>
              Fprintln_Stderr ("Failed to decompress content of '" ++ file
                               ++ "': " ++ Error err) ;;
              os_Exit 1
          | inr zReader =>
              let '(decompressedContents, _) := ReadAll zReader in
              let headerEndOffset := findNullByteIndex decompressedContents in
              content <- checked (slice_from decompressedContents
                                             (headerEndOffset + 1)) ;;
              Print (to_string content)
          end
      end
  end.

(** [hashObject], from the arguments left by the flag parser. *)
Definition hashObject (write : bool) (args : list string) : M unit :=
  file <- checked (head args) ;;
  r <- os_ReadFile file ;;
  match r with
  | inl err =>
      Fprintln_Stderr ("Failed to read file '" ++ file ++ "'. Error: "
                       ++ Error err) ;;
      os_Exit 1
  | inr fileContent =>
      let blob := blobContents fileContent in
      let hash := sha1Hash blob in
      Println (to_string hash) ;;
      if write then
        objectFolder <- checked (slice_to hash 2) ;;
        objectFile <- checked (slice_from hash 2) ;;
        err <- os_Mkdir (object_folder (to_string objectFolder)) ;;
        match err with
        | Some e =>
            if negb (IsExist e)
            then Fprintln_Stderr ("Failed to create folder '"
                                  ++ to_string objectFolder
                                  ++ "'. Error: " ++ Error e) ;;
                 os_Exit 1
            else ret tt
        | None => ret tt
        end ;;
        let compressedFile :=
          object_file (to_string objectFolder) (to_string objectFile) in
        r <- os_Create compressedFile ;;
        match r with
        | inl e =>
            Fprintln_Stderr ("Failed to create compressed file '"
                             ++ to_string objectFile
                             ++ "'. Error: " ++ Error e) ;;
            os_Exit 1
        | inr compressedBlobContents =>
            let compressedWriter := NewWriter compressedBlobContents in
            res <- Writer_Write compressedWriter blob ;;
            let compressedWriter := fst res in
            match snd res with
            | Some e =>
                Fprintln_Stderr ("Failed to write zlib compressed data to '"
                                 ++ compressedFile ++ "': " ++ Error e) ;;
                os_Exit 1
            | None => ret tt
            end ;;
            _ <- Writer_Close compressedWriter ;;
            ret tt
        end
      else ret tt
  end.

(** The file [catFile] reads for [object] (lines 101-104) and the file
    [hashObject] writes for [hash] (lines 168-180). *)
Definition catFile_file (object : string) : option string :=
  dir ← str_slice_to object 2;
  filename ← str_slice_from object 2;
  Some (object_file dir filename).

Definition hashObject_file (hash : bytes) : option string :=
  objectFolder ← slice_to hash 2;
  objectFile ← slice_from hash 2;
  Some (object_file (to_string objectFolder) (to_string objectFile)).

End Commands.

(** ** A codec of the zlib format with stored blocks

    The zlib container of RFC 1950 around a deflate stream made of stored
    blocks only (RFC 1951, section 3.2.4): two header bytes, the blocks,
    the Adler-32 checksum of the data.  It is the instance of [Zlib] on
    which the commands are run on concrete files; a block that is not a
    stored one is outside of it and is reported as corrupt input. *)

Module Stored.

Import SHA1.
Local Open Scope Z_scope.

Definition adler_step (s : Z * Z) (c : byte) : Z * Z :=
  let a := (fst s + byte_to_Z c) mod 65521 in
  (a, (snd s + a) mod 65521).

(** [adler32.Checksum]. *)
Definition adler32 (data : bytes) : Z :=
  let s := fold_left adler_step data (1, 0) in
  snd s * 65536 + fst s.

Definition le16 (n : Z) : bytes := [byte_of_Z n; byte_of_Z (Z.shiftr n 8)].

Definition max_stored : nat := N.to_nat 65535.

(** One stored block: the header bits in a byte of their own, [LEN],
    its complement [NLEN], the bytes. *)
Definition stored_block (final : bool) (data : bytes) : bytes :=
  (if final then x01 else x00)
  :: le16 (Z.of_nat (length data))
  ++ le16 (65535 - Z.of_nat (length data))
  ++ data.

Fixpoint stored_blocks (fuel : nat) (data : bytes) : bytes :=
  match fuel with
  | O => []
  | S fuel' =>
      if (length data <=? max_stored)%nat then stored_block true data
      else stored_block false (firstn max_stored data)
           ++ stored_blocks fuel' (skipn max_stored data)
  end.

Definition deflate (data : bytes) : bytes :=
  x78 :: x01 :: stored_blocks (S (length data)) data ++ be32 (adler32 data).

Definition uint32 (b0 b1 b2 b3 : byte) : Z :=
  Z.lor (Z.lor (Z.lor (Z.shiftl (byte_to_Z b0) 24) (Z.shiftl (byte_to_Z b1) 16))
               (Z.shiftl (byte_to_Z b2) 8))
        (byte_to_Z b3).

(** [zlib.NewReader]: the header is read and checked; the reader is the
    input that follows it. *)
Definition NewReader (input : bytes) : error + bytes :=
  match input with
  | cmf :: flg :: rest =>
      let h := byte_to_Z cmf * 256 + byte_to_Z flg in
      if negb (Z.land (byte_to_Z cmf) 15 =? 8)
         || (7 <? Z.shiftr (byte_to_Z cmf) 4)
         || negb (h mod 31 =? 0)
      then inl ErrHeader
      else if negb (Z.land (byte_to_Z flg) 32 =? 0)
      then match rest with
           | d0 :: d1 :: d2 :: d3 :: rest' =>
               if uint32 d0 d1 d2 d3 =? adler32 [] then inr rest'
               else inl ErrDictionary
           | _ => inl ErrUnexpectedEOF
           end
      else inr rest
  | _ => inl ErrUnexpectedEOF
  end.

Inductive block_result :=
  | Block (final : bool) (payload rest : bytes)
  | Broken (e : error) (partial : bytes).

(** Reading one block at byte offset [off] of the deflate stream. *)
Definition read_block (off : nat) (input : bytes) : block_result :=
  match input with
  | [] => Broken ErrUnexpectedEOF []
  | hdr :: rest =>
      if negb (Z.land (Z.shiftr (byte_to_Z hdr) 1) 3 =? 0)
      then Broken (CorruptInputError off) []
      else match rest with
           | l0 :: l1 :: n0 :: n1 :: rest' =>
               let n := Z.lor (byte_to_Z l0) (Z.shiftl (byte_to_Z l1) 8) in
               let nn := Z.lor (byte_to_Z n0) (Z.shiftl (byte_to_Z n1) 8) in
               if negb (nn =? 65535 - n)
               then Broken (CorruptInputError (off + 5)) []
               else if (length rest' <? Z.to_nat n)%nat
               then Broken ErrUnexpectedEOF rest'
               else Block (Z.testbit (byte_to_Z hdr) 0)
                          (firstn (Z.to_nat n) rest')
                          (skipn (Z.to_nat n) rest')
           | _ => Broken ErrUnexpectedEOF []
           end
  end.

(** The blocks up to the final one; what is decoded is kept when the
    stream breaks. *)
Fixpoint inflate (fuel off : nat) (input out : bytes)
  : bytes * (error + bytes) :=
  match fuel with
  | O => (out, inl ErrUnexpectedEOF)
  | S fuel' =>
      match read_block off input with
      | Broken e partial => (out ++ partial, inl e)
      | Block final payload rest =>
          if final then (out ++ payload, inr rest)
          else inflate fuel' (off + 5 + length payload) rest (out ++ payload)
      end
  end.

(** [io.ReadAll] on the reader: the blocks, then the checksum. *)
Definition ReadAll (r : bytes) : bytes * option error :=
  match inflate (S (length r)) 0 r [] with
  | (out, inl e) => (out, Some e)
  | (out, inr rest) =>
      match rest with
      | c0 :: c1 :: c2 :: c3 :: _ =>
          if uint32 c0 c1 c2 c3 =? adler32 out then (out, None)
          else (out, Some ErrChecksum)
      | _ => (out, Some ErrUnexpectedEOF)
      end
  end.

End Stored.

Definition stored_zlib : Zlib := {|
  Reader := bytes;
  deflate := Stored.deflate;
  NewReader := Stored.NewReader;
  ReadAll := Stored.ReadAll
|}.

(** ** The package flag, as the program uses it

    Flag sets with boolean flags only, handled as [flag.ExitOnError]:
    [parseOne] looks at the first argument, [Parse] repeats it until an
    argument is no flag.  The usage strings of the program have neither
    back quotes nor line feeds, and [PrintDefaults] is given for such
    strings.  [strconv.Quote], which the message on a bad boolean value
    goes through, is a parameter. *)

Class Strconv := { Quote : string -> string }.

Module Flag.

(** A flag set: its name, its boolean flags with their usage strings in
    the order of their names, and whether it is [flag.CommandLine],
    whose usage is headed by the name of the program whatever it is. *)
Record FlagSet := {
  name : string;
  formal : list (string * string);
  commandLine : bool
}.

Definition NewFlagSet (name : string) (formal : list (string * string))
  : FlagSet :=
  {| name := name; formal := formal; commandLine := false |}.

(** [strconv.ParseBool]. *)
Definition ParseBool (str : string) : option bool :=
  if existsb (String.eqb str) ["1"; "t"; "T"; "TRUE"; "true"; "True"]
  then Some true
  else if existsb (String.eqb str) ["0"; "f"; "F"; "FALSE"; "false"; "False"]
  then Some false
  else None.

Definition tab : string := String (ascii_of_nat 9) EmptyString.

(** The line of [PrintDefaults] for a boolean flag whose default is
    [false]. *)
Definition flag_line (fl : string * string) : string :=
  let b : string := ("  -" ++ fst fl)%string in
  (b ++ (if (String.length b <=? 4)%nat then tab
         else newline ++ "    " ++ tab)
     ++ snd fl ++ newline)%string.

Definition PrintDefaults (f : FlagSet) : M unit :=
  fun w =>
    Returns tt (World (files w) (stdout w)
                  (stderr w ++ String.concat "" (map flag_line (formal f)))).

Definition usage (f : FlagSet) : M unit :=
  bind (fun w =>
          Returns tt
            (World (files w) (stdout w)
               (stderr w ++ (if negb (commandLine f)
                                && String.eqb (name f) EmptyString
                             then "Usage:" ++ newline
                             else "Usage of " ++ name f ++ ":" ++ newline)%string)))
       (fun _ => PrintDefaults f).

(** What [parseOne] finds in the first argument. *)
Inductive found :=
  | NotAFlag
  | Terminator
  | Value (name : string) (value : bool)
  | Help
  | Failure (msg : string).

Definition byte_is (s : string) (i : nat) (c : ascii) : bool :=
  match String.get i s with
  | Some d => Ascii.eqb d c
  | None => false
  end.

(** [for i := 1; i < len(name); i++ { if name[i] == '=' ... }]. *)
Fixpoint scan_equals (i : nat) (s : string) : option nat :=
  match s with
  | EmptyString => None
  | String c rest => if Ascii.eqb c "=" then Some i else scan_equals (S i) rest
  end.

Definition find_equals (name : string) : option nat :=
  match name with
  | EmptyString => None
  | String _ rest => scan_equals 1 rest
  end.

Definition lookup_formal (f : FlagSet) (name : string) : bool :=
  existsb (fun fl => String.eqb (fst fl) name) (formal f).

Section ParseOne.

Context {sc : Strconv}.

Definition parseOne (f : FlagSet) (s : string) : found :=
  if (String.length s <? 2)%nat || negb (byte_is s 0 "-") then NotAFlag
  else
    let numMinuses := if byte_is s 1 "-" then 2%nat else 1%nat in
    if byte_is s 1 "-" && (String.length s =? 2)%nat then Terminator
    else
      let name := String.substring numMinuses (String.length s - numMinuses) s in
      if (String.length name =? 0)%nat || byte_is name 0 "-"
         || byte_is name 0 "="
      then Failure ("bad flag syntax: " ++ s)%string
      else
        let '(name, hasValue, value) :=
          match find_equals name with
          | Some i =>
              (String.substring 0 i name, true,
               String.substring (i + 1) (String.length name - (i + 1)) name)
          | None => (name, false, EmptyString)
          end in
        if negb (lookup_formal f name)
        then if String.eqb name "help" || String.eqb name "h" then Help
             else Failure ("flag provided but not defined: -" ++ name)%string
        else if hasValue
        then match ParseBool value with
             | Some b => Value name b
             | None =>
                 Failure ("invalid boolean value " ++ Quote value ++ " for -"
                          ++ name ++ ": parse error")%string
             end
        else Value name true.

(** [Parse]: the values of the flags that were set and the arguments
    that are left. *)
Fixpoint Parse_from (f : FlagSet) (actual : gmap string bool)
    (args : list string) : M (gmap string bool * list string) :=
  match args with
  | [] => ret (actual, [])
  | s :: rest =>
      match parseOne f s with
      | NotAFlag => ret (actual, s :: rest)
      | Terminator => ret (actual, rest)
      | Value name b => Parse_from f (<[name := b]> actual) rest
      | Help => bind (usage f) (fun _ => os_Exit 0)
      | Failure msg =>
          bind (Fprintln_Stderr msg) (fun _ =>
          bind (usage f) (fun _ => os_Exit 2))
      end
  end.

Definition Parse (f : FlagSet) (args : list string)
  : M (gmap string bool * list string) :=
  Parse_from f ∅ args.

End ParseOne.

(** The variable of [flag.Bool(name, false, usage)] after [Parse]. *)
Definition Bool (actual : gmap string bool) (name : string) : bool :=
  default false (actual !! name).

End Flag.

(** ** The commands with their flags, and [main] *)

Section Main.

Context {zl : Zlib} {sc : Strconv}.

(** [catFile] from its first line. *)
Definition catFile_args (args : list string) : M unit :=
  let flag := Flag.NewFlagSet "git cat-file"
    [("p", "pretty-print the contents of <object> based on its type")] in
  parsed <- Flag.Parse flag args ;;
  let pprint := Flag.Bool (fst parsed) "p" in
  let args := snd parsed in
  catFile pprint args.

(** [hashObject] from its first line. *)
Definition hashObject_args (args : list string) : M unit :=
  let flag := Flag.NewFlagSet "git hash-object"
    [("w", "Actually write the object into the object database")] in
  parsed <- Flag.Parse flag args ;;
  let write := Flag.Bool (fst parsed) "w" in
  let args := snd parsed in
  hashObject write args.

(** [main], from [os.Args[0]] and [os.Args[1:]]. *)
Definition main (program : string) (args : list string) : M unit :=
  parsed <- Flag.Parse {| Flag.name := program; Flag.formal := [];
                          Flag.commandLine := true |} args ;;
  let arguments := snd parsed in
  match arguments with
  | [] =>
      Fprintln_Stderr "usage: git <command> [<args..]" ;;
      os_Exit 1
  | command :: commandArgs =>
      if String.eqb command "init" then initCmd
      else if String.eqb command "cat-file" then catFile_args commandArgs
      else if String.eqb command "hash-object" then hashObject_args commandArgs
      else Fprintln_Stderr "Not yet implemented git command" ;;
           os_Exit 1
  end.

End Main.

(** [strconv.Quote] as it is on printable ASCII without quotes and
    backslashes: the string between double quotes. *)
Definition plain_quote : Strconv :=
  {| Quote := fun s =>
       (String (ascii_of_nat 34) s ++ String (ascii_of_nat 34) EmptyString)%string |}.

(** ** Vocabulary of the statements *)

(** An argument that [parseOne] takes for a flag or for the end of the
    flags: at least 2 bytes, the first a minus sign. *)
Definition looks_like_flag (s : string) : bool :=
  (2 <=? String.length s)%nat && Flag.byte_is s 0 "-".


(** Lines 126-128 of [catFile] on the decompressed bytes: what is
    printed, [None] when the slice expression panics. *)
Definition strip_header (decompressedContents : bytes) : option bytes :=
  let headerEndOffset := findNullByteIndex decompressedContents in
  slice_from decompressedContents (headerEndOffset + 1).

(** No byte of [data] is zero. *)
Definition no_nul (data : bytes) : Prop := Forall (fun v => v <> x00) data.

(** The world a command leaves behind, however it ends. *)
Definition world_of {A} (o : outcome A) : world :=
  match o with
  | Returns _ w => w
  | Exits _ w => w
  | Panics w => w
  end.

(** The number a string of decimal digits denotes, read from the left
    after the digits already summed up in [acc]. *)
Definition horner (acc : N) (s : string) : N :=
  fold_left (fun acc c => (10 * acc + (N_of_ascii c - 48))%N)
            (list_ascii_of_string s) acc.

Definition decimal_value (s : string) : N := horner 0 s.

Definition is_decimal_digit (c : ascii) : bool :=
  (48 <=? N_of_ascii c)%N && (N_of_ascii c <=? 57)%N.

Definition all_chars (P : ascii -> bool) (s : string) : Prop :=
  Forall (fun c => P c = true) (list_ascii_of_string s).

(** ['0'..'9'] and ['a'..'f']. *)
Definition is_lower_hex (c : ascii) : bool :=
  is_decimal_digit c || ((97 <=? N_of_ascii c)%N && (N_of_ascii c <=? 102)%N).

(** The layout [initCmd] leaves behind. *)
Definition init_done (fs : gmap FS.path FS.node) : Prop :=
  fs !! [".git"] = Some FS.Dir
  /\ is_Some (fs !! [".git"; "objects"])
  /\ is_Some (fs !! [".git"; "refs"])
  /\ fs !! [".git"; "HEAD"] = Some (FS.File headContent).

(** Nothing is there yet under the name [.git]. *)
Definition no_git (fs : gmap FS.path FS.node) : Prop :=
  forall p, fs !! (".git" :: p) = None.

Definition not_slash (c : ascii) : bool := negb (Ascii.eqb c "/").

Definition init_message : string := "Initialized .git directory" ++ newline.

(** An empty working directory, nothing printed yet. *)
Definition fresh_world : world := World ∅ "" "".

(** A store, laid out by [initCmd], with one object file of the given
    bytes under the given names. *)
Definition store_with (dir filename : string) (contents : bytes) : world :=
  World (<[ [".git"; "objects"; dir; filename] := FS.File contents ]>
           (<[ [".git"; "objects"; dir] := FS.Dir ]>
              (files (world_of (initCmd fresh_world)))))
        "" "".

(** A working directory with one file, [initCmd] done. *)
Definition repository_with (name : string) (content : bytes) : world :=
  world_of (initCmd (World {[ [name] := FS.File content ]} "" "")).

(** Object files: the zlib stream of bytes that have no header, a stream
    whose checksum is wrong, a stream that ends before its checksum, and
    a stream that ends within the data of its block. *)
Definition headerless_object : bytes := Stored.deflate (of_string "abc").

Definition canonical_abc : bytes := of_string "blob 3" ++ x00 :: of_string "abc".

Definition bad_checksum_object : bytes :=
  x78 :: x01 :: Stored.stored_block true canonical_abc ++ [x00; x00; x00; x00].

Definition no_checksum_object : bytes :=
  x78 :: x01 :: Stored.stored_block true canonical_abc.

Definition cut_object : bytes :=
  removelast (x78 :: x01 :: Stored.stored_block true canonical_abc).

(** A name that is one component of a path and enters a directory. *)
Definition plain_name (s : string) : Prop :=
  all_chars not_slash s /\ FS.is_dot s = false /\ FS.is_dotdot s = false.

(** The value of a hexadecimal digit. *)
Definition hex_value (c : ascii) : N :=
  if is_decimal_digit c then (N_of_ascii c - 48)%N else (N_of_ascii c - 87)%N.

(** The bytes a string of hexadecimal digits denotes, two digits a
    byte. *)
Fixpoint hex_bytes (s : string) : list N :=
  match s with
  | String hi (String lo rest) =>
      (16 * hex_value hi + hex_value lo)%N :: hex_bytes rest
  | _ => []
  end.

(** The directory and the file of the object named by the 40 bytes
    [hash], as paths of the file system. *)
Definition shard_dir (hash : bytes) : FS.path :=
  [".git"; "objects"; to_string (firstn 2 hash)].

Definition shard_file (hash : bytes) : FS.path :=
  shard_dir hash ++ [to_string (skipn 2 hash)].

(** The object store is laid out as [initCmd] leaves it and nothing but
    a directory sits where the shard of [hash] goes, nothing but a
    regular file where its object goes. *)
Definition store_ready (fs : gmap FS.path FS.node) (hash : bytes) : Prop :=
  fs !! [".git"] = Some FS.Dir
  /\ fs !! [".git"; "objects"] = Some FS.Dir
  /\ (fs !! shard_dir hash = None \/ fs !! shard_dir hash = Some FS.Dir)
  /\ fs !! shard_file hash <> Some FS.Dir.

(** * Properties *)

(** ** Strings and byte slices *)

Section Conversions.

Lemma of_string_cons c s :
  of_string (String c s) = byte_of_ascii c :: of_string s.
Proof. reflexivity. Qed.

Lemma to_string_cons b l :
  to_string (b :: l) = String (ascii_of_byte b) (to_string l).
Proof. reflexivity. Qed.

Lemma string_app_cons c s t : (String c s ++ t)%string = String c (s ++ t).
Proof. reflexivity. Qed.

Lemma of_string_app s t : of_string (s ++ t) = of_string s ++ of_string t.
Proof.
  induction s as [|c s IH]; [reflexivity|].
  rewrite string_app_cons, !of_string_cons, IH. reflexivity.
Qed.

Lemma to_string_app a b : to_string (a ++ b) = (to_string a ++ to_string b)%string.
Proof.
  induction a as [|c a IH]; [reflexivity|].
  cbn [app]. rewrite !to_string_cons, IH, string_app_cons. reflexivity.
Qed.

Lemma of_to_string b : of_string (to_string b) = b.
Proof. apply list_byte_of_string_of_list_byte. Qed.

Lemma to_of_string s : to_string (of_string s) = s.
Proof. apply string_of_list_byte_of_string. Qed.

Lemma length_of_string s : length (of_string s) = String.length s.
Proof.
  induction s as [|c s IH]; [reflexivity|].
  rewrite of_string_cons. cbn. now rewrite IH.
Qed.

Lemma length_to_string b : String.length (to_string b) = length b.
Proof. rewrite <- length_of_string, of_to_string. reflexivity. Qed.

Lemma string_length_app s t :
  String.length (s ++ t)%string = (String.length s + String.length t)%nat.
Proof.
  induction s as [|c s IH]; [reflexivity|].
  rewrite string_app_cons. simpl. now rewrite IH.
Qed.

Lemma substring_all s : String.substring 0 (String.length s) s = s.
Proof. induction s as [|c s IH]; simpl; [reflexivity|]. now rewrite IH. Qed.

Lemma to_string_firstn n b :
  to_string (firstn n b) = String.substring 0 n (to_string b).
Proof.
  revert b; induction n as [|n IH]; intros [|c b]; try reflexivity.
  cbn [firstn]. rewrite !to_string_cons. cbn [String.substring].
  now rewrite IH.
Qed.

Lemma to_string_skipn n b :
  (n <= length b)%nat ->
  to_string (skipn n b) = String.substring n (length b - n) (to_string b).
Proof.
  revert b; induction n as [|n IH]; intros b Hn.
  - cbn [skipn]. rewrite Nat.sub_0_r, <- length_to_string.
    symmetry; apply substring_all.
  - destruct b as [|c b]; [cbn in Hn; lia|].
    cbn [skipn]. rewrite to_string_cons. cbn [String.substring length Nat.sub].
    apply IH. cbn in Hn; lia.
Qed.

Lemma substring_split n s :
  (n <= String.length s)%nat ->
  (String.substring 0 n s ++ String.substring n (String.length s - n) s)%string
  = s.
Proof.
  revert s; induction n as [|n IH]; intros s Hn.
  - rewrite Nat.sub_0_r, substring_all. destruct s; reflexivity.
  - destruct s as [|c s]; [cbn in Hn; lia|].
    simpl in Hn. simpl. rewrite string_app_cons, IH; [reflexivity | lia].
Qed.

Lemma length_substring_0 n s :
  (n <= String.length s)%nat -> String.length (String.substring 0 n s) = n.
Proof.
  revert s; induction n as [|n IH]; intros s Hn.
  - destruct s; reflexivity.
  - destruct s as [|c s]; [simpl in Hn; lia|]. simpl in Hn. simpl.
    rewrite IH; [reflexivity | lia].
Qed.

End Conversions.

(** ** [findNullByteIndex] *)

Section NullByte.

Lemma is_nul_true v : is_nul v = true <-> v = x00.
Proof.
  unfold is_nul. split.
  - apply Byte.byte_dec_bl.
  - apply Byte.byte_dec_lb.
Qed.

Lemma is_nul_false v : is_nul v = false <-> v <> x00.
Proof.
  rewrite <- is_nul_true. destruct (is_nul v); split; congruence.
Qed.

Lemma range_find_nul_none i data :
  no_nul data -> range_find_nul i data = None.
Proof.
  intros H; revert i; induction H as [|v rest Hv _ IH]; intros i.
  - reflexivity.
  - cbn. apply is_nul_false in Hv. rewrite Hv. apply IH.
Qed.

Lemma range_find_nul_app i hdr rest :
  no_nul hdr ->
  range_find_nul i (hdr ++ x00 :: rest) = Some (i + length hdr)%nat.
Proof.
  intros H; revert i; induction H as [|v tl Hv _ IH]; intros i.
  - cbn. f_equal; lia.
  - cbn. apply is_nul_false in Hv. rewrite Hv, IH. f_equal; lia.
Qed.

(** The loop returns the first index that holds a zero byte. *)
Lemma range_find_nul_some i data j :
  range_find_nul i data = Some j ->
  exists hdr rest, data = hdr ++ x00 :: rest /\ no_nul hdr
                   /\ j = (i + length hdr)%nat.
Proof.
  revert i; induction data as [|v data IH]; intros i; cbn; [discriminate|].
  destruct (is_nul v) eqn:Hv.
  - intros [= <-]. apply is_nul_true in Hv; subst v.
    exists [], data. repeat split; [constructor | cbn; lia].
  - intros H. destruct (IH _ H) as (hdr & rest & -> & Hh & ->).
    exists (v :: hdr), rest. repeat split.
    + constructor; [now apply is_nul_false | exact Hh].
    + cbn; lia.
Qed.

Lemma findNullByteIndex_none data :
  no_nul data -> findNullByteIndex data = length data.
Proof.
  intros H. unfold findNullByteIndex. now rewrite range_find_nul_none.
Qed.

Lemma findNullByteIndex_app hdr rest :
  no_nul hdr -> findNullByteIndex (hdr ++ x00 :: rest) = length hdr.
Proof.
  intros H. unfold findNullByteIndex. now rewrite range_find_nul_app.
Qed.

Lemma findNullByteIndex_le data : (findNullByteIndex data <= length data)%nat.
Proof.
  unfold findNullByteIndex. destruct (range_find_nul 0 data) as [j|] eqn:E.
  - apply range_find_nul_some in E as (hdr & rest & -> & _ & ->).
    rewrite length_app. cbn; lia.
  - lia.
Qed.

Lemma skipn_past {A} (hdr : list A) x rest :
  skipn (length hdr + 1) (hdr ++ x :: rest) = rest.
Proof. induction hdr as [|h hdr IH]; [reflexivity | exact IH]. Qed.

Lemma strip_header_app hdr content :
  no_nul hdr -> strip_header (hdr ++ x00 :: content) = Some content.
Proof.
  intros H. unfold strip_header, slice_from.
  rewrite findNullByteIndex_app by exact H.
  rewrite length_app. cbn [length].
  destruct (Nat.leb_spec (length hdr + 1) (length hdr + S (length content)));
    [|lia].
  now rewrite skipn_past.
Qed.

Lemma strip_header_none data : no_nul data -> strip_header data = None.
Proof.
  intros H. unfold strip_header, slice_from.
  rewrite findNullByteIndex_none by exact H.
  destruct (Nat.leb_spec (length data + 1) (length data)); [lia|reflexivity].
Qed.

End NullByte.

(** ** Decimal formatting *)

Section Decimal.

Local Open Scope N_scope.

Lemma N_of_digit_char d : d < 10 -> N_of_ascii (digit_char d) = 48 + d.
Proof. intros H. unfold digit_char. apply N_ascii_embedding. lia. Qed.

Lemma digit_char_decimal d : d < 10 -> is_decimal_digit (digit_char d) = true.
Proof.
  intros H. unfold is_decimal_digit. rewrite N_of_digit_char by exact H.
  apply andb_true_intro; split; apply N.leb_le; lia.
Qed.

Lemma all_chars_cons P c s :
  P c = true -> all_chars P s -> all_chars P (String c s).
Proof. intros Hc Hs. constructor; assumption. Qed.

Lemma all_chars_app P s t :
  all_chars P s -> all_chars P t -> all_chars P (s ++ t).
Proof.
  intros Hs Ht. induction s as [|c s IH]; [exact Ht|].
  rewrite string_app_cons. inversion Hs; subst.
  apply all_chars_cons; [assumption | now apply IH].
Qed.

Lemma fmt_integer_decimal fuel u buf :
  all_chars is_decimal_digit buf ->
  all_chars is_decimal_digit (fmt_integer fuel u buf).
Proof.
  revert u buf; induction fuel as [|fuel IH]; intros u buf Hbuf; [exact Hbuf|].
  cbn [fmt_integer]. destruct (N.leb_spec 10 u).
  - apply IH, all_chars_cons; [|exact Hbuf].
    apply digit_char_decimal, N.mod_lt. lia.
  - apply all_chars_cons; [|exact Hbuf]. now apply digit_char_decimal.
Qed.

Lemma fmt_integer_length fuel u buf :
  String.length (fmt_integer fuel u buf)
  = (count_digits fuel u + String.length buf)%nat.
Proof.
  revert u buf; induction fuel as [|fuel IH]; intros u buf; [reflexivity|].
  cbn [fmt_integer count_digits]. destruct (10 <=? u).
  - rewrite IH. simpl. lia.
  - reflexivity.
Qed.

Lemma horner_cons acc d s :
  d < 10 -> horner acc (String (digit_char d) s) = horner (10 * acc + d) s.
Proof.
  intros H. unfold horner. cbn [list_ascii_of_string fold_left].
  rewrite N_of_digit_char by exact H. f_equal. lia.
Qed.

Lemma div10_lt u : 10 <= u -> (N.to_nat (u / 10) < N.to_nat u)%nat.
Proof.
  intros H. assert (u / 10 < u) by (apply N.div_lt; lia). lia.
Qed.

Lemma fmt_integer_value fuel u buf :
  (N.to_nat u < fuel)%nat ->
  horner 0 (fmt_integer fuel u buf) = horner u buf.
Proof.
  revert u buf; induction fuel as [|fuel IH]; intros u buf Hf; [lia|].
  cbn [fmt_integer]. destruct (N.leb_spec 10 u) as [Hu|Hu].
  - rewrite IH by (pose proof (div10_lt u Hu); lia).
    rewrite horner_cons by (apply N.mod_lt; lia).
    f_equal. rewrite N.mul_comm. symmetry. rewrite N.mul_comm.
    apply N.div_mod. lia.
  - rewrite horner_cons by exact Hu. f_equal.
Qed.

(** [count_digits] is the number of decimal digits: the least [k], at
    least 1, with [u < 10 ^ k]. *)
Lemma count_digits_bounds fuel u :
  (N.to_nat u < fuel)%nat ->
  (1 <= count_digits fuel u)%nat
  /\ u < 10 ^ N.of_nat (count_digits fuel u)
  /\ (10 <= u -> 10 ^ N.of_nat (count_digits fuel u - 1) <= u).
Proof.
  revert u; induction fuel as [|fuel IH]; intros u Hf; [lia|].
  cbn [count_digits]. destruct (N.leb_spec 10 u) as [Hu|Hu].
  - destruct (IH (u / 10)) as (H1 & H2 & H3);
      [pose proof (div10_lt u Hu); lia|].
    pose proof (N.div_mod u 10 ltac:(lia)) as Hdm.
    pose proof (conj (N.le_0_l (u mod 10)) (N.mod_lt u 10 ltac:(lia))) as Hm.
    repeat split; [lia | |].
    + rewrite Nat2N.inj_succ, N.pow_succ_r'.
      assert (Hx : forall p, u / 10 < p -> u < 10 * p)
        by (intros p Hp; clear - Hp Hdm Hm; lia).
      apply Hx, H2.
    + intros _. replace (S (count_digits fuel (u / 10)) - 1)%nat
        with (S (count_digits fuel (u / 10) - 1))%nat by lia.
      rewrite Nat2N.inj_succ, N.pow_succ_r'.
      destruct (N.leb_spec 10 (u / 10)) as [Hq|Hq].
      * assert (Hx : forall p, p <= u / 10 -> 10 * p <= u)
          by (intros p Hp; clear - Hp Hdm Hm; lia).
        apply Hx, H3, Hq.
      * assert (count_digits fuel (u / 10) = 1%nat) as ->.
        { destruct fuel; [clear - Hf Hu; lia|].
          cbn [count_digits].
          destruct (N.leb_spec 10 (u / 10)); [clear - Hq H; lia|].
          reflexivity. }
        cbn. lia.
  - repeat split; [lia | cbn; lia | lia].
Qed.

End Decimal.

Section Encoding.

Lemma Sprintf_d_decimal n : all_chars is_decimal_digit (Sprintf_d n).
Proof. apply fmt_integer_decimal. constructor. Qed.

Lemma Sprintf_d_length n : String.length (Sprintf_d n) = digits n.
Proof.
  unfold Sprintf_d, digits. rewrite fmt_integer_length. simpl. lia.
Qed.

Lemma Sprintf_d_value n : decimal_value (Sprintf_d n) = N.of_nat n.
Proof.
  unfold Sprintf_d, decimal_value.
  rewrite fmt_integer_value by lia. reflexivity.
Qed.

Lemma digits_bounds n :
  (1 <= digits n)%nat
  /\ (N.of_nat n < 10 ^ N.of_nat (digits n))%N
  /\ ((10 <= n)%nat -> (10 ^ N.of_nat (digits n - 1) <= N.of_nat n)%N).
Proof.
  destruct (count_digits_bounds (S n) (N.of_nat n)) as (H1 & H2 & H3); [lia|].
  unfold digits. repeat split; [exact H1 | exact H2 |].
  intros H. apply H3. lia.
Qed.

Lemma byte_of_ascii_nul c : byte_of_ascii c = x00 -> N_of_ascii c = 0%N.
Proof.
  intros H. rewrite <- (ascii_of_byte_of_ascii c), H. reflexivity.
Qed.

Lemma no_nul_of_string P s :
  (forall c, P c = true -> N_of_ascii c <> 0%N) ->
  all_chars P s -> no_nul (of_string s).
Proof.
  intros HP Hs. induction s as [|c s IH]; [constructor|].
  inversion Hs; subst. rewrite of_string_cons. constructor.
  - intros Hc. apply byte_of_ascii_nul in Hc. now apply (HP c).
  - now apply IH.
Qed.

Lemma decimal_digit_not_nul c :
  is_decimal_digit c = true -> N_of_ascii c <> 0%N.
Proof.
  unfold is_decimal_digit. intros H. apply andb_prop in H as [H _].
  apply N.leb_le in H. lia.
Qed.

(** The canonical form, byte by byte. *)
Lemma blobContents_eq content :
  blobContents content
  = of_string "blob " ++ of_string (Sprintf_d (length content))
    ++ x00 :: content.
Proof.
  unfold blobContents.
  rewrite !of_string_app, (of_string_cons Ascii.zero), of_to_string.
  reflexivity.
Qed.

Lemma blob_header_no_nul n :
  no_nul (of_string "blob " ++ of_string (Sprintf_d n)).
Proof.
  apply Forall_app; split.
  - repeat constructor; discriminate.
  - apply (no_nul_of_string is_decimal_digit);
      [apply decimal_digit_not_nul | apply Sprintf_d_decimal].
Qed.

Lemma strip_header_blobContents content :
  strip_header (blobContents content) = Some content.
Proof.
  rewrite blobContents_eq, app_assoc.
  apply strip_header_app, blob_header_no_nul.
Qed.

(** C2. Canonical encoding: the canonical form of a blob is exactly the
    bytes "blob", a space, the length of the content in ASCII decimal, a
    zero byte and the content; its length is 4 + 1 + the number of
    decimal digits of the length + 1 + the length of the content; and
    two different contents never have the same canonical form. *)
Theorem canonical_encoding (content : bytes) :
  blobContents content
  = of_string "blob" ++ of_string " "
    ++ of_string (Sprintf_d (length content)) ++ [x00] ++ content
  /\ all_chars is_decimal_digit (Sprintf_d (length content))
  /\ decimal_value (Sprintf_d (length content)) = N.of_nat (length content)
  /\ length (blobContents content)
     = (String.length "blob" + 1 + digits (length content) + 1
        + length content)%nat
  /\ (forall content', blobContents content = blobContents content' <->
                       content = content').
Proof.
  split; [apply blobContents_eq|].
  split; [apply Sprintf_d_decimal|].
  split; [apply Sprintf_d_value|].
  split.
  - rewrite blobContents_eq, !length_app, !length_of_string, Sprintf_d_length.
    cbn. lia.
  - intros content'. split; [|now intros ->].
    intros H. pose proof (strip_header_blobContents content) as H1.
    rewrite H, strip_header_blobContents in H1. congruence.
Qed.

End Encoding.

(** ** The digest *)

Section Digest.

Lemma Sum_length text : length (SHA1.Sum text) = SHA1.Size.
Proof. unfold SHA1.Sum. cbv zeta. rewrite !length_app. reflexivity. Qed.

Lemma hex_digits_of_byte c :
  is_lower_hex (hex_digit (N.shiftr (Byte.to_N c) 4)) = true
  /\ is_lower_hex (hex_digit (N.land (Byte.to_N c) 15)) = true
  /\ (16 * hex_value (hex_digit (N.shiftr (Byte.to_N c) 4))
      + hex_value (hex_digit (N.land (Byte.to_N c) 15)))%N = Byte.to_N c.
Proof. destruct c; repeat split; reflexivity. Qed.

Lemma Sprintf_x_length b : String.length (Sprintf_x b) = (2 * length b)%nat.
Proof. induction b as [|c b IH]; simpl; [reflexivity|]. rewrite IH. lia. Qed.

Lemma Sprintf_x_hex b : all_chars is_lower_hex (Sprintf_x b).
Proof.
  induction b as [|c b IH]; [constructor|].
  destruct (hex_digits_of_byte c) as (Hh & Hl & _).
  cbn [Sprintf_x]. repeat apply all_chars_cons; assumption.
Qed.

Lemma sha1Hash_to_string text :
  to_string (sha1Hash text) = Sprintf_x (SHA1.Sum text).
Proof. apply to_of_string. Qed.

Lemma sha1Hash_length text : length (sha1Hash text) = 40%nat.
Proof.
  unfold sha1Hash. cbv zeta.
  rewrite length_of_string, Sprintf_x_length, Sum_length. reflexivity.
Qed.

Lemma sha1Hash_hex text : all_chars is_lower_hex (to_string (sha1Hash text)).
Proof. rewrite sha1Hash_to_string. apply Sprintf_x_hex. Qed.

End Digest.

(** ** Where an object is kept *)

Section ShardPath.

Lemma slice_to_some b n :
  (n <= length b)%nat -> slice_to b n = Some (firstn n b).
Proof.
  intros H. unfold slice_to.
  destruct (Nat.leb_spec n (length b)); [reflexivity | lia].
Qed.

Lemma slice_from_some b n :
  (n <= length b)%nat -> slice_from b n = Some (skipn n b).
Proof.
  intros H. unfold slice_from.
  destruct (Nat.leb_spec n (length b)); [reflexivity | lia].
Qed.

Lemma slice_from_none b n : (length b < n)%nat -> slice_from b n = None.
Proof.
  intros H. unfold slice_from.
  destruct (Nat.leb_spec n (length b)); [lia | reflexivity].
Qed.

Lemma str_slice_to_some s n :
  (n <= String.length s)%nat ->
  str_slice_to s n = Some (String.substring 0 n s).
Proof.
  intros H. unfold str_slice_to.
  destruct (Nat.leb_spec n (String.length s)); [reflexivity | lia].
Qed.

Lemma str_slice_to_none s n :
  (String.length s < n)%nat -> str_slice_to s n = None.
Proof.
  intros H. unfold str_slice_to.
  destruct (Nat.leb_spec n (String.length s)); [lia | reflexivity].
Qed.

Lemma str_slice_from_some s n :
  (n <= String.length s)%nat ->
  str_slice_from s n = Some (String.substring n (String.length s - n) s).
Proof.
  intros H. unfold str_slice_from.
  destruct (Nat.leb_spec n (String.length s)); [reflexivity | lia].
Qed.

Lemma catFile_file_some object :
  (2 <= String.length object)%nat ->
  catFile_file object
  = Some (object_file (String.substring 0 2 object)
            (String.substring 2 (String.length object - 2) object)).
Proof.
  intros H. unfold catFile_file.
  rewrite str_slice_to_some, str_slice_from_some by exact H. reflexivity.
Qed.

Lemma catFile_file_none object :
  (String.length object < 2)%nat -> catFile_file object = None.
Proof.
  intros H. unfold catFile_file. now rewrite str_slice_to_none.
Qed.

Lemma hashObject_file_some hash :
  (2 <= length hash)%nat ->
  hashObject_file hash
  = Some (object_file (to_string (firstn 2 hash)) (to_string (skipn 2 hash))).
Proof.
  intros H. unfold hashObject_file.
  rewrite slice_to_some, slice_from_some by exact H. reflexivity.
Qed.

(** The two commands name the same file for the same identifier. *)
Lemma catFile_file_hash hash :
  (2 <= length hash)%nat ->
  catFile_file (to_string hash) = hashObject_file hash.
Proof.
  intros H. rewrite hashObject_file_some by exact H.
  rewrite catFile_file_some by (rewrite length_to_string; exact H).
  rewrite to_string_firstn, to_string_skipn, length_to_string by exact H.
  reflexivity.
Qed.

Lemma components_cons c s :
  not_slash c = true ->
  exists h t, FS.components s = h :: t
              /\ FS.components (String c s) = String c h :: t.
Proof.
  intros Hc. unfold not_slash in Hc. apply negb_true_iff in Hc.
  cbn [FS.components]. rewrite Hc.
  destruct s as [|d s]; [exists EmptyString, []; split; reflexivity|].
  destruct (FS.components (String d s)) as [|h t] eqn:E.
  - exfalso. cbn [FS.components] in E.
    destruct (Ascii.eqb d "/"); [discriminate|].
    destruct (FS.components s); discriminate.
  - exists h, t. split; reflexivity.
Qed.

Lemma components_no_slash s : all_chars not_slash s -> FS.components s = [s].
Proof.
  induction s as [|c s IH]; intros H; [reflexivity|].
  inversion H; subst.
  destruct (components_cons c s) as (h & t & E1 & E2); [assumption|].
  rewrite E2. rewrite IH in E1 by assumption. congruence.
Qed.

Lemma components_slash a b :
  all_chars not_slash a ->
  FS.components (a ++ String "/" b) = a :: FS.components b.
Proof.
  induction a as [|c a IH]; intros H; [reflexivity|].
  inversion H; subst. rewrite string_app_cons.
  destruct (components_cons c (a ++ String "/" b)) as (h & t & E1 & E2);
    [assumption|].
  rewrite E2. rewrite IH in E1 by assumption. congruence.
Qed.

Lemma components_object_file dir filename :
  all_chars not_slash dir -> all_chars not_slash filename ->
  FS.components (object_file dir filename)
  = [".git"; "objects"; dir; filename].
Proof.
  intros Hd Hf. unfold object_file.
  change (".git/objects/" ++ dir ++ "/" ++ filename)%string
    with (".git" ++ String "/" ("objects" ++ String "/"
            (dir ++ String "/" filename)))%string.
  rewrite !components_slash, components_no_slash;
    try assumption; try reflexivity; repeat constructor.
Qed.

Lemma components_object_folder dir :
  all_chars not_slash dir ->
  FS.components (object_folder dir) = [".git"; "objects"; dir].
Proof.
  intros Hd. unfold object_folder.
  change (".git/objects/" ++ dir)%string
    with (".git" ++ String "/" ("objects" ++ String "/" dir))%string.
  rewrite !components_slash, components_no_slash;
    try assumption; try reflexivity; repeat constructor.
Qed.

Lemma all_chars_impl (P Q : ascii -> bool) s :
  (forall c, P c = true -> Q c = true) -> all_chars P s -> all_chars Q s.
Proof.
  intros HPQ. unfold all_chars. induction 1; constructor; auto.
Qed.

Lemma all_chars_substring P n m s :
  all_chars P s -> all_chars P (String.substring n m s).
Proof.
  revert n m; induction s as [|c s IH]; intros n m H.
  - destruct n, m; constructor.
  - inversion H; subst. destruct n as [|n].
    + destruct m as [|m]; [constructor|]. cbn [String.substring].
      apply all_chars_cons; [assumption | now apply IH].
    + cbn [String.substring]. now apply IH.
Qed.

Lemma lower_hex_not_slash c : is_lower_hex c = true -> not_slash c = true.
Proof.
  unfold is_lower_hex, is_decimal_digit, not_slash. intros H.
  apply negb_true_iff, Ascii.eqb_neq. intros ->. cbn in H. discriminate.
Qed.

(** C4. Shard path: for every identifier of 40 characters, [catFile] and
    [hashObject] name the same file: ".git/objects/", the first 2
    characters as the directory, "/", the remaining 38 characters as the
    file name; when the identifier has no '/', these are the four
    components of the path.  The identifier
    0a5159e4fd9efdc3530c880fa15b672f08d47421 goes to directory 0a, file
    5159e4fd9efdc3530c880fa15b672f08d47421. *)
Theorem shard_path (identifier : string) :
  String.length identifier = 40%nat ->
  exists dir filename,
    identifier = (dir ++ filename)%string
    /\ String.length dir = 2%nat
    /\ String.length filename = 38%nat
    /\ catFile_file identifier
       = Some (".git/objects/" ++ dir ++ "/" ++ filename)%string
    /\ hashObject_file (of_string identifier)
       = Some (".git/objects/" ++ dir ++ "/" ++ filename)%string
    /\ (all_chars not_slash identifier ->
        FS.components (".git/objects/" ++ dir ++ "/" ++ filename)
        = [".git"; "objects"; dir; filename])
    /\ catFile_file "0a5159e4fd9efdc3530c880fa15b672f08d47421"
       = Some (object_file "0a" "5159e4fd9efdc3530c880fa15b672f08d47421").
Proof.
  intros Hlen.
  exists (String.substring 0 2 identifier),
         (String.substring 2 (String.length identifier - 2) identifier).
  assert (H2 : (2 <= String.length identifier)%nat) by lia.
  split; [symmetry; now apply substring_split|].
  split; [now apply length_substring_0|].
  split.
  { pose proof (substring_split 2 identifier H2) as E.
    apply (f_equal String.length) in E.
    rewrite string_length_app, length_substring_0 in E by exact H2. lia. }
  split; [now apply catFile_file_some|].
  split.
  { rewrite <- catFile_file_hash by (rewrite length_of_string; exact H2).
    rewrite to_of_string. now apply catFile_file_some. }
  split; [|reflexivity].
  intros Hs. apply components_object_file; now apply all_chars_substring.
Qed.

Lemma shard_path_witness :
  exists dir filename,
    "bd9dbf5aae1a3862dd1526723246b20206e5fc37" = (dir ++ filename)%string
    /\ String.length dir = 2%nat
    /\ String.length filename = 38%nat
    /\ catFile_file "bd9dbf5aae1a3862dd1526723246b20206e5fc37"
       = Some (".git/objects/" ++ dir ++ "/" ++ filename)%string
    /\ hashObject_file (of_string "bd9dbf5aae1a3862dd1526723246b20206e5fc37")
       = Some (".git/objects/" ++ dir ++ "/" ++ filename)%string
    /\ (all_chars not_slash "bd9dbf5aae1a3862dd1526723246b20206e5fc37" ->
        FS.components (".git/objects/" ++ dir ++ "/" ++ filename)
        = [".git"; "objects"; dir; filename])
    /\ catFile_file "0a5159e4fd9efdc3530c880fa15b672f08d47421"
       = Some (object_file "0a" "5159e4fd9efdc3530c880fa15b672f08d47421").
Proof.
  apply (shard_path "bd9dbf5aae1a3862dd1526723246b20206e5fc37"). reflexivity.
Defined.

End ShardPath.

(** ** The file system at the paths of the store *)

Section StorePaths.

Implicit Types fs : gmap FS.path FS.node.

Lemma mkdir_git fs :
  FS.mkdir fs ".git/"
  = match fs !! [".git"] with
    | Some _ => inl FS.EEXIST
    | None => inr (<[ [".git"] := FS.Dir ]> fs)
    end.
Proof. reflexivity. Qed.

Lemma mkdir_objects fs :
  FS.mkdir fs ".git/objects"
  = match fs !! [".git"] with
    | Some FS.Dir =>
        match fs !! [".git"; "objects"] with
        | Some _ => inl FS.EEXIST
        | None => inr (<[ [".git"; "objects"] := FS.Dir ]> fs)
        end
    | Some (FS.File _) => inl FS.ENOTDIR
    | None => inl FS.ENOENT
    end.
Proof.
  unfold FS.mkdir; cbn -[lookup insert]. destruct (fs !! [".git"]) as [[|?]|]; reflexivity.
Qed.

Lemma mkdir_refs fs :
  FS.mkdir fs ".git/refs"
  = match fs !! [".git"] with
    | Some FS.Dir =>
        match fs !! [".git"; "refs"] with
        | Some _ => inl FS.EEXIST
        | None => inr (<[ [".git"; "refs"] := FS.Dir ]> fs)
        end
    | Some (FS.File _) => inl FS.ENOTDIR
    | None => inl FS.ENOENT
    end.
Proof.
  unfold FS.mkdir; cbn -[lookup insert]. destruct (fs !! [".git"]) as [[|?]|]; reflexivity.
Qed.

Lemma creat_HEAD fs :
  FS.creat fs ".git/HEAD"
  = match fs !! [".git"] with
    | Some FS.Dir =>
        match fs !! [".git"; "HEAD"] with
        | Some FS.Dir => inl FS.EISDIR
        | _ => inr ([".git"; "HEAD"], <[ [".git"; "HEAD"] := FS.File [] ]> fs)
        end
    | Some (FS.File _) => inl FS.ENOTDIR
    | None => inl FS.ENOENT
    end.
Proof.
  unfold FS.creat; cbn -[lookup insert]. destruct (fs !! [".git"]) as [[|?]|]; reflexivity.
Qed.

End StorePaths.

(** ** [initCmd] *)

(** Unfolding a command step by step, and the lookups after the
    insertions it made. *)
Ltac step_proc :=
  cbn -[FS.mkdir FS.creat FS.append FS.read lookup insert String.append].

Ltac fs_lookup :=
  repeat first [ rewrite lookup_insert_eq
               | rewrite lookup_insert_ne by discriminate ].

Ltac fs_lookup_in H :=
  repeat first [ rewrite lookup_insert_eq in H
               | rewrite lookup_insert_ne in H by discriminate ].

Section Init.

Implicit Types fs : gmap FS.path FS.node.

Lemma append_created fs fd data :
  FS.append (<[fd := FS.File []]> fs) fd data = <[fd := FS.File data]> fs.
Proof.
  unfold FS.append. rewrite lookup_insert_eq, insert_insert_eq. reflexivity.
Qed.

(** On the layout it creates, [initCmd] changes nothing. *)
Lemma initCmd_done w :
  init_done (files w) ->
  initCmd w = Returns tt (World (files w) (stdout w ++ init_message) (stderr w)).
Proof.
  destruct w as [fs out err]. cbn [files stdout stderr].
  intros (Hgit & [o Ho] & [r Hr] & Hhead).
  unfold initCmd, create_folders, os_WriteFile, os_Create, os_Mkdir, File_Write,
    Println, Print, bind, ret, set_files.
  cbn [files stdout stderr].
  rewrite mkdir_git, Hgit. step_proc.
  rewrite mkdir_objects, Hgit, Ho. step_proc.
  rewrite mkdir_refs, Hgit, Hr. step_proc.
  rewrite creat_HEAD, Hgit, Hhead. step_proc.
  rewrite append_created, insert_id by exact Hhead. reflexivity.
Qed.

(** Whenever [initCmd] returns, the layout is in place and nothing went
    to the standard error. *)
Lemma initCmd_returns w w1 :
  initCmd w = Returns tt w1 ->
  init_done (files w1)
  /\ stdout w1 = (stdout w ++ init_message)%string
  /\ stderr w1 = stderr w
  /\ (forall name, name = "objects" \/ name = "refs" ->
      files w !! [".git"; name] = None ->
      files w1 !! [".git"; name] = Some FS.Dir).
Proof.
  destruct w as [fs out err].
  unfold initCmd, create_folders, os_WriteFile, os_Create, os_Mkdir, File_Write,
    Println, Print, Fprintln_Stderr, os_Exit, bind, ret, set_files, init_done.
  cbn [files stdout stderr].
  rewrite mkdir_git.
  destruct (fs !! [".git"]) as [[|?]|] eqn:Hgit; step_proc;
    rewrite mkdir_objects; fs_lookup; rewrite ?Hgit; step_proc;
    try discriminate;
    (destruct (fs !! [".git"; "objects"]) as [o|] eqn:Ho; step_proc;
     rewrite mkdir_refs; fs_lookup; rewrite ?Hgit; step_proc;
     (destruct (fs !! [".git"; "refs"]) as [r|] eqn:Hr; step_proc;
      rewrite creat_HEAD; fs_lookup; rewrite ?Hgit; step_proc;
      (destruct (fs !! [".git"; "HEAD"]) as [[|?]|] eqn:Hh; step_proc;
       try discriminate;
       rewrite append_created; intros [= <-]; cbn [files stdout stderr];
       fs_lookup; rewrite ?Hgit, ?Ho, ?Hr;
       (repeat split; eauto;
        intros name [-> | ->]; fs_lookup; congruence)))).
Qed.

Lemma read_HEAD fs :
  FS.read fs ".git/HEAD"
  = match fs !! [".git"] with
    | Some FS.Dir =>
        match fs !! [".git"; "HEAD"] with
        | Some (FS.File content) => inr content
        | Some FS.Dir => inl ("read", FS.EISDIR)
        | None => inl ("open", FS.ENOENT)
        end
    | Some (FS.File _) => inl ("open", FS.ENOTDIR)
    | None => inl ("open", FS.ENOENT)
    end.
Proof.
  unfold FS.read; cbn -[lookup insert].
  destruct (fs !! [".git"]) as [[|?]|]; reflexivity.
Qed.

(** [initCmd] ends by returning or by [os.Exit(1)] after a message on
    the standard error; it never panics. *)
Lemma initCmd_outcome w :
  (exists w1, initCmd w = Returns tt w1)
  \/ (exists w1 msg, initCmd w = Exits 1 w1
                     /\ stderr w1 = (stderr w ++ msg ++ newline)%string
                     /\ stdout w1 = stdout w).
Proof.
  destruct w as [fs out err].
  unfold initCmd, create_folders, os_WriteFile, os_Create, os_Mkdir, File_Write,
    Println, Print, Fprintln_Stderr, os_Exit, bind, ret, set_files.
  cbn [files stdout stderr].
  repeat (step_proc;
          match goal with
          | |- context [match FS.mkdir ?f ?n with _ => _ end] =>
              destruct (FS.mkdir f n) as [[]|]
          | |- context [match FS.creat ?f ?n with _ => _ end] =>
              destruct (FS.creat f n) as [[]|[]]
          end);
    step_proc; eauto 10.
Qed.

Lemma initCmd_fresh w :
  no_git (files w) ->
  exists w1, initCmd w = Returns tt w1.
Proof.
  destruct w as [fs out err]. cbn [files]. intros Hn.
  unfold initCmd, create_folders, os_WriteFile, os_Create, os_Mkdir, File_Write,
    Println, Print, bind, ret, set_files.
  cbn [files stdout stderr].
  rewrite mkdir_git, (Hn []). step_proc.
  rewrite mkdir_objects. fs_lookup. rewrite (Hn ["objects"]). step_proc.
  rewrite mkdir_refs. fs_lookup. rewrite (Hn ["refs"]). step_proc.
  rewrite creat_HEAD. fs_lookup. rewrite (Hn ["HEAD"]). step_proc.
  eauto.
Qed.

(** A mkdir error other than "file exists" ends [initCmd] with status 1,
    and so does any error on HEAD. *)
Lemma create_folders_surfaces folder rest w e :
  FS.mkdir (files w) folder = inl e -> e <> FS.EEXIST ->
  exists w1, create_folders (folder :: rest) w = Exits 1 w1
             /\ files w1 = files w.
Proof.
  intros Hm He. cbn [create_folders]. unfold bind, os_Mkdir. rewrite Hm.
  destruct e; try congruence; step_proc; eauto.
Qed.

Lemma create_folders_tolerates folder rest w :
  FS.mkdir (files w) folder = inl FS.EEXIST ->
  create_folders (folder :: rest) w = create_folders rest w.
Proof.
  intros Hm. cbn [create_folders]. unfold bind, os_Mkdir. rewrite Hm.
  reflexivity.
Qed.

(** C8. Idempotent init: when [initCmd] has succeeded, running it again
    in the same root succeeds again and leaves the same files; .git
    is a directory, .git/objects and .git/refs exist (as directories
    when [initCmd] had to create them), and .git/HEAD holds exactly
    the bytes of "ref: refs/heads/main" followed by a line feed.  While
    the folders are created, "file exists" is passed over and any
    other error of mkdir ends the command with status 1. *)
Theorem idempotent_init (w w1 : world) :
  initCmd w = Returns tt w1 ->
  (exists w2, initCmd w1 = Returns tt w2 /\ files w2 = files w1)
  /\ FS.read (files w1) ".git/HEAD"
     = inr (of_string "ref: refs/heads/main" ++ [x0a])
  /\ files w1 !! [".git"] = Some FS.Dir
  /\ is_Some (files w1 !! [".git"; "objects"])
  /\ is_Some (files w1 !! [".git"; "refs"])
  /\ (files w !! [".git"; "objects"] = None ->
      files w1 !! [".git"; "objects"] = Some FS.Dir)
  /\ (files w !! [".git"; "refs"] = None ->
      files w1 !! [".git"; "refs"] = Some FS.Dir)
  /\ (forall w' folder rest,
        FS.mkdir (files w') folder = inl FS.EEXIST ->
        create_folders (folder :: rest) w' = create_folders rest w')
  /\ (forall w' folder rest e,
        FS.mkdir (files w') folder = inl e -> e <> FS.EEXIST ->
        exists w'', create_folders (folder :: rest) w' = Exits 1 w''
                    /\ files w'' = files w').
Proof.
  intros H. apply initCmd_returns in H as (Hd & _ & _ & Hnew).
  pose proof Hd as (Hgit & Ho & Hr & Hhead).
  split; [eexists; split; [now apply initCmd_done | reflexivity]|].
  split; [rewrite read_HEAD, Hgit, Hhead; reflexivity|].
  split; [assumption|]. split; [assumption|]. split; [assumption|].
  split; [apply Hnew; auto|]. split; [apply Hnew; auto|].
  split; [intros; now apply create_folders_tolerates|].
  intros w' folder rest e. apply create_folders_surfaces.
Qed.

Lemma idempotent_init_witness :
  (exists w2, initCmd (world_of (initCmd fresh_world)) = Returns tt w2
              /\ files w2 = files (world_of (initCmd fresh_world)))
  /\ FS.read (files (world_of (initCmd fresh_world))) ".git/HEAD"
     = inr (of_string "ref: refs/heads/main" ++ [x0a]).
Proof.
  destruct (idempotent_init fresh_world (world_of (initCmd fresh_world)))
    as (H1 & H2 & _).
  - vm_compute. reflexivity.
  - split; [exact H1 | exact H2].
Defined.

End Init.

(** ** The file system at the path of an object *)

Lemma step_plain cur name :
  plain_name name -> FS.step cur name = cur ++ [name].
Proof. intros (_ & H1 & H2). unfold FS.step. now rewrite H1, H2. Qed.

Lemma step_git cur : FS.step cur ".git" = cur ++ [".git"].
Proof. reflexivity. Qed.

Lemma step_objects cur : FS.step cur "objects" = cur ++ ["objects"].
Proof. reflexivity. Qed.

Ltac walk_dirs :=
  unfold FS.walk_parent; cbv [rev]; cbn [app];
  repeat (cbn -[lookup insert FS.step];
          first [ rewrite step_git
                | rewrite step_objects
                | erewrite step_plain by eassumption
                | match goal with
                  | H : ?fs !! ?p = Some FS.Dir |- context [?fs !! ?p] =>
                      rewrite H
                  end ];
          cbn [app]).

Section ObjectPaths.

Implicit Types fs : gmap FS.path FS.node.

Lemma plain_not_empty name : plain_name name -> name <> EmptyString.
Proof. intros (_ & H & _) ->. discriminate. Qed.

Lemma strip_trailing_plain pre name :
  plain_name name ->
  FS.strip_trailing (pre ++ [name]) = pre ++ [name].
Proof.
  intros Hn. induction pre as [|c pre IH].
  - cbn. destruct (String.eqb_spec name EmptyString) as [E|_]; [|reflexivity].
    now apply plain_not_empty in Hn.
  - cbn [app FS.strip_trailing]. rewrite IH.
    destruct pre; reflexivity.
Qed.

Lemma object_folder_not_empty dir :
  String.eqb (object_folder dir) EmptyString = false.
Proof. reflexivity. Qed.

Lemma object_file_not_empty dir filename :
  String.eqb (object_file dir filename) EmptyString = false.
Proof. reflexivity. Qed.

Lemma mkdir_shard fs dir :
  plain_name dir ->
  fs !! [".git"] = Some FS.Dir ->
  fs !! [".git"; "objects"] = Some FS.Dir ->
  FS.mkdir fs (object_folder dir)
  = match fs !! [".git"; "objects"; dir] with
    | Some _ => inl FS.EEXIST
    | None => inr (<[ [".git"; "objects"; dir] := FS.Dir ]> fs)
    end.
Proof.
  intros Hd Hgit Hobj. unfold FS.mkdir.
  rewrite object_folder_not_empty, components_object_folder by apply Hd.
  pose proof (strip_trailing_plain [".git"; "objects"] dir Hd) as E.
  cbn [app] in E. rewrite E. clear E.
  walk_dirs. destruct Hd as (_ & -> & ->). reflexivity.
Qed.

Lemma creat_object fs dir filename :
  plain_name dir -> plain_name filename ->
  fs !! [".git"] = Some FS.Dir ->
  fs !! [".git"; "objects"] = Some FS.Dir ->
  fs !! [".git"; "objects"; dir] = Some FS.Dir ->
  FS.creat fs (object_file dir filename)
  = match fs !! [".git"; "objects"; dir; filename] with
    | Some FS.Dir => inl FS.EISDIR
    | _ => inr ([".git"; "objects"; dir; filename],
                <[ [".git"; "objects"; dir; filename] := FS.File [] ]> fs)
    end.
Proof.
  intros Hd Hf Hgit Hobj Hdir. unfold FS.creat.
  rewrite object_file_not_empty, components_object_file by (apply Hd || apply Hf).
  walk_dirs. destruct Hf as (_ & -> & ->). reflexivity.
Qed.

Lemma read_object fs dir filename :
  plain_name dir -> plain_name filename ->
  fs !! [".git"] = Some FS.Dir ->
  fs !! [".git"; "objects"] = Some FS.Dir ->
  fs !! [".git"; "objects"; dir] = Some FS.Dir ->
  FS.read fs (object_file dir filename)
  = match fs !! [".git"; "objects"; dir; filename] with
    | None => inl ("open", FS.ENOENT)
    | Some FS.Dir => inl ("read", FS.EISDIR)
    | Some (FS.File content) => inr content
    end.
Proof.
  intros Hd Hf Hgit Hobj Hdir. unfold FS.read.
  rewrite object_file_not_empty, components_object_file by (apply Hd || apply Hf).
  walk_dirs. reflexivity.
Qed.

(** Hexadecimal names are plain. *)
Lemma hex_not_dot c : is_lower_hex c = true -> Ascii.eqb c "." = false.
Proof.
  intros H. apply Ascii.eqb_neq. intros ->. cbn in H. discriminate.
Qed.

Lemma hex_plain s :
  all_chars is_lower_hex s -> s <> EmptyString -> plain_name s.
Proof.
  intros Hs Hne. split; [|split].
  - eapply all_chars_impl; [exact lower_hex_not_slash | exact Hs].
  - destruct s as [|c s]; [congruence|]. inversion Hs; subst.
    unfold FS.is_dot. cbn. now rewrite hex_not_dot.
  - destruct s as [|c s]; [congruence|]. inversion Hs; subst.
    unfold FS.is_dotdot. cbn. now rewrite hex_not_dot.
Qed.

Lemma length_not_empty s n : String.length s = S n -> s <> EmptyString.
Proof. intros H ->. discriminate. Qed.

Lemma hash_names text :
  let hash := sha1Hash (blobContents text) in
  plain_name (to_string (firstn 2 hash))
  /\ plain_name (to_string (skipn 2 hash)).
Proof.
  intros hash.
  pose proof (sha1Hash_length (blobContents text)) as Hlen.
  pose proof (sha1Hash_hex (blobContents text)) as Hhex.
  fold hash in Hlen, Hhex. split; apply hex_plain.
  - rewrite to_string_firstn. now apply all_chars_substring.
  - apply (length_not_empty _ 1). rewrite length_to_string, length_firstn. lia.
  - rewrite to_string_skipn by lia. now apply all_chars_substring.
  - apply (length_not_empty _ 37). rewrite length_to_string, length_skipn. lia.
Qed.

End ObjectPaths.

(** ** [catFile] and [hashObject], evaluated *)

Ltac hash_step :=
  cbn -[FS.mkdir FS.creat FS.append FS.read lookup insert String.append
        to_string of_string firstn skipn deflate].

Section Evaluation.

Context {zl : Zlib}.

(** [catFile] in one equation: the file is read, its header checked by
    the zlib reader, the stream read to the end, the error of that
    reading dropped, and what follows the first zero byte printed. *)
Lemma catFile_eval pprint object rest w file :
  catFile_file object = Some file ->
  catFile pprint (object :: rest) w
  = match FS.read (files w) file with
    | inl (op, e) =>
        Exits 1 (World (files w) (stdout w)
                   (stderr w ++ ("Failed to read '" ++ file ++ "': "
                                 ++ Error (path_error op file e)) ++ newline))
    | inr fileContents =>
        match NewReader fileContents with
        | inl err =>
            Exits 1 (World (files w) (stdout w)
                       (stderr w ++ ("Failed to decompress content of '"
                                     ++ file ++ "': " ++ Error err)
                        ++ newline))
        | inr zReader =>
            match strip_header (fst (ReadAll zReader)) with
            | Some content =>
                Returns tt (World (files w) (stdout w ++ to_string content)
                              (stderr w))
            | None => Panics w
            end
        end
    end.
Proof.
  unfold catFile_file. intros Hfile.
  destruct (str_slice_to object 2) as [dir|] eqn:Hd; [|discriminate].
  destruct (str_slice_from object 2) as [filename|] eqn:Hf; [|discriminate].
  cbn in Hfile. injection Hfile as <-.
  unfold catFile, bind, checked, ret, os_ReadFile. rewrite Hd, Hf.
  destruct (FS.read (files w) (object_file dir filename)) as [[op e]|contents];
    [reflexivity|].
  destruct (NewReader contents) as [err|zReader]; [reflexivity|].
  unfold strip_header. destruct (ReadAll zReader) as [data err].
  cbn [fst]. destruct (slice_from data (findNullByteIndex data + 1));
    reflexivity.
Qed.

Lemma catFile_short pprint object rest w :
  (String.length object < 2)%nat ->
  catFile pprint (object :: rest) w = Panics w.
Proof.
  intros H. unfold catFile, bind, checked.
  now rewrite str_slice_to_none.
Qed.

(** What [hashObject] prints depends on the content of the file alone,
    whatever happens to the writing. *)
Lemma hashObject_stdout write file rest w fileContent :
  FS.read (files w) file = inr fileContent ->
  stdout (world_of (hashObject write (file :: rest) w))
  = (stdout w ++ to_string (sha1Hash (blobContents fileContent)) ++ newline)%string.
Proof.
  intros Hread.
  unfold hashObject, bind, checked, ret, os_ReadFile, head.
  rewrite Hread. cbv zeta.
  set (blob := blobContents fileContent). set (hash := sha1Hash blob).
  pose proof (sha1Hash_length blob) as Hlen. fold hash in Hlen.
  destruct write; [|reflexivity].
  rewrite slice_to_some, slice_from_some by lia.
  unfold Println, Print, os_Mkdir, os_Create, Writer_Write, Writer_Close,
    File_Write, Fprintln_Stderr, os_Exit, bind, ret.
  step_proc.
  destruct (FS.mkdir _ _) as [[]|]; step_proc; try reflexivity;
    destruct (FS.creat _ _) as [|[]]; reflexivity.
Qed.

(** With the store in place, [hashObject -w] returns, having printed the
    identifier and written the compressed canonical form where the
    identifier says. *)
Lemma hashObject_writes file rest w fileContent :
  FS.read (files w) file = inr fileContent ->
  store_ready (files w) (sha1Hash (blobContents fileContent)) ->
  hashObject true (file :: rest) w
  = Returns tt
      (World (<[shard_file (sha1Hash (blobContents fileContent))
                := FS.File (deflate (blobContents fileContent))]>
                (<[shard_dir (sha1Hash (blobContents fileContent))
                   := FS.Dir]> (files w)))
             (stdout w ++ to_string (sha1Hash (blobContents fileContent))
              ++ newline)
             (stderr w)).
Proof.
  intros Hread. destruct (hash_names fileContent) as (Hd & Hf). revert Hd Hf.
  pose proof (sha1Hash_length (blobContents fileContent)) as Hlen. revert Hlen.
  unfold hashObject, bind, checked, ret, os_ReadFile, head.
  rewrite Hread. cbv zeta.
  generalize (sha1Hash (blobContents fileContent)) as hash.
  generalize (blobContents fileContent) as blob.
  intros blob hash Hlen Hd Hf (Hgit & Hobj & Hdir & Hfile).
  rewrite slice_to_some, slice_from_some by lia.
  unfold Println, Print, os_Mkdir, os_Create, Writer_Write, Writer_Close,
    File_Write, Fprintln_Stderr, os_Exit, bind, ret.
  unfold shard_file, shard_dir in *. cbn [app] in *.
  destruct w as [fs out err]. cbn [files stdout stderr] in *.
  rewrite mkdir_shard by assumption.
  destruct Hdir as [Hdir | Hdir]; rewrite Hdir; hash_step.
  - rewrite creat_object;
      [ | assumption | assumption | fs_lookup; assumption
        | fs_lookup; assumption | fs_lookup; reflexivity ].
    fs_lookup.
    destruct (fs !! [_; _; _; _]) as [[|?]|] eqn:E; [congruence| |];
      hash_step; now rewrite append_created.
  - rewrite creat_object by assumption.
    rewrite (insert_id fs _ _ Hdir).
    destruct (fs !! [_; _; _; _]) as [[|?]|] eqn:E; [congruence| |];
      hash_step; now rewrite append_created.
Qed.

End Evaluation.

(** ** The stored codec keeps the contract of the library *)

Section StoredCodec.

Import SHA1 Stored.
Local Open Scope Z_scope.

Lemma lor_shiftl hi lo k :
  0 <= k -> 0 <= lo < 2 ^ k -> Z.lor (Z.shiftl hi k) lo = hi * 2 ^ k + lo.
Proof.
  intros Hk Hlo.
  assert (Hland : Z.land (Z.shiftl hi k) lo = 0).
  { apply Z.bits_inj'. intros i Hi. rewrite Z.land_spec, Z.bits_0.
    destruct (Z.lt_ge_cases i k) as [Hik|Hik].
    - rewrite Z.shiftl_spec_low by exact Hik. reflexivity.
    - rewrite <- (Z.mod_small lo (2 ^ k)) by exact Hlo.
      rewrite Z.mod_pow2_bits_high by lia. apply andb_false_r. }
  rewrite <- Z.lxor_lor by exact Hland.
  rewrite <- Z.add_nocarry_lxor by exact Hland.
  now rewrite Z.shiftl_mul_pow2.
Qed.

Lemma byte_to_Z_range b : 0 <= byte_to_Z b < 256.
Proof.
  unfold byte_to_Z. pose proof (Byte.to_N_bounded b). lia.
Qed.

Lemma byte_to_of_Z z : byte_to_Z (byte_of_Z z) = z mod 256.
Proof.
  unfold byte_to_Z, byte_of_Z.
  pose proof (Z.mod_pos_bound z 256 ltac:(lia)) as Hm.
  destruct (Byte.of_N (Z.to_N (z mod 256))) as [b|] eqn:E.
  - apply Byte.to_of_N in E. rewrite E. lia.
  - apply Byte.of_N_None_iff in E. lia.
Qed.

Lemma uint16_le16 n :
  0 <= n < 65536 ->
  match le16 n with
  | [l0; l1] => Z.lor (byte_to_Z l0) (Z.shiftl (byte_to_Z l1) 8)
  | _ => -1
  end = n.
Proof.
  intros Hn. cbn [le16]. rewrite Z.lor_comm, lor_shiftl;
    [|lia|pose proof (byte_to_Z_range (byte_of_Z n)); lia].
  rewrite !byte_to_of_Z, Z.shiftr_div_pow2 by lia.
  change (2 ^ 8) with 256.
  rewrite (Z.mod_small (n / 256)) by (split; [apply Z.div_pos|
    apply Z.div_lt_upper_bound]; lia).
  pose proof (Z.div_mod n 256 ltac:(lia)). lia.
Qed.

Lemma lor_mul hi lo k :
  0 <= k -> 0 <= lo < 2 ^ k -> Z.lor (hi * 2 ^ k) lo = hi * 2 ^ k + lo.
Proof.
  intros Hk Hlo. rewrite <- Z.shiftl_mul_pow2 by exact Hk.
  rewrite lor_shiftl by assumption. now rewrite Z.shiftl_mul_pow2.
Qed.

Lemma uint32_value b0 b1 b2 b3 :
  uint32 b0 b1 b2 b3
  = byte_to_Z b0 * 16777216 + byte_to_Z b1 * 65536 + byte_to_Z b2 * 256
    + byte_to_Z b3.
Proof.
  unfold uint32.
  pose proof (byte_to_Z_range b0). pose proof (byte_to_Z_range b1).
  pose proof (byte_to_Z_range b2). pose proof (byte_to_Z_range b3).
  rewrite !Z.shiftl_mul_pow2 by lia.
  rewrite (lor_mul _ _ 24) by (change (2 ^ 16) with 65536;
                               change (2 ^ 24) with 16777216; lia).
  change (2 ^ 24) with 16777216. change (2 ^ 16) with 65536.
  replace (byte_to_Z b0 * 16777216 + byte_to_Z b1 * 65536)
    with ((byte_to_Z b0 * 256 + byte_to_Z b1) * 2 ^ 16)
    by (change (2 ^ 16) with 65536; lia).
  rewrite (lor_mul _ _ 16) by (change (2 ^ 8) with 256;
                               change (2 ^ 16) with 65536; lia).
  change (2 ^ 16) with 65536. change (2 ^ 8) with 256.
  replace ((byte_to_Z b0 * 256 + byte_to_Z b1) * 65536 + byte_to_Z b2 * 256)
    with ((byte_to_Z b0 * 65536 + byte_to_Z b1 * 256 + byte_to_Z b2) * 2 ^ 8)
    by (change (2 ^ 8) with 256; lia).
  rewrite (lor_mul _ _ 8) by (change (2 ^ 8) with 256; lia).
  change (2 ^ 8) with 256. lia.
Qed.

Lemma uint32_be32 w :
  0 <= w < 2 ^ 32 ->
  match be32 w with
  | [b0; b1; b2; b3] => uint32 b0 b1 b2 b3
  | _ => -1
  end = w.
Proof.
  intros Hw. cbn [be32]. rewrite uint32_value, !byte_to_of_Z.
  rewrite !Z.shiftr_div_pow2 by lia.
  change (2 ^ 24) with 16777216. change (2 ^ 16) with 65536.
  change (2 ^ 8) with 256. change (2 ^ 32) with 4294967296 in Hw.
  Z.div_mod_to_equations. lia.
Qed.

Lemma adler_step_range s c :
  0 <= fst (adler_step s c) < 65521 /\ 0 <= snd (adler_step s c) < 65521.
Proof.
  unfold adler_step. cbn [fst snd]. split; apply Z.mod_pos_bound; lia.
Qed.

Lemma adler_fold_range data s :
  0 <= fst s < 65521 /\ 0 <= snd s < 65521 ->
  0 <= fst (fold_left adler_step data s) < 65521
  /\ 0 <= snd (fold_left adler_step data s) < 65521.
Proof.
  revert s; induction data as [|c data IH]; intros s Hs; [exact Hs|].
  cbn [fold_left]. apply IH, adler_step_range.
Qed.

Lemma adler32_range data : 0 <= adler32 data < 2 ^ 32.
Proof.
  unfold adler32. pose proof (adler_fold_range data (1, 0)) as H.
  cbn [fst snd] in H. destruct H as [Ha Hb]; [lia|].
  cbv zeta. change (2 ^ 32) with 4294967296. lia.
Qed.

Lemma read_stored_block off final data rest :
  (length data <= max_stored)%nat ->
  read_block off (stored_block final data ++ rest) = Block final data rest.
Proof.
  intros Hlen. unfold max_stored in Hlen.
  assert (Hn : 0 <= Z.of_nat (length data) < 65536) by lia.
  unfold stored_block. cbn [app].
  pose proof (uint16_le16 _ Hn) as E1.
  assert (Hc : 0 <= 65535 - Z.of_nat (length data) < 65536) by lia.
  pose proof (uint16_le16 _ Hc) as E2.
  cbn [le16 app] in *. unfold read_block.
  replace (negb (Z.land (Z.shiftr (byte_to_Z (if final then x01 else x00)) 1) 3
                 =? 0)) with false by (destruct final; reflexivity).
  rewrite E1, E2, Z.eqb_refl. cbn [negb]. rewrite Nat2Z.id.
  destruct (Nat.ltb_spec (length (data ++ rest)) (length data)) as [Hl|_].
  { rewrite length_app in Hl. lia. }
  rewrite firstn_app, Nat.sub_diag, firstn_all, firstn_O, app_nil_r.
  rewrite skipn_app, Nat.sub_diag, skipn_all, skipn_O.
  destruct final; reflexivity.
Qed.

Lemma inflate_stored_blocks fuel : forall data fuel' off out rest,
  (length data < fuel)%nat -> (fuel <= fuel')%nat ->
  inflate fuel' off (stored_blocks fuel data ++ rest) out
  = (out ++ data, inr rest).
Proof.
  induction fuel as [|fuel IH]; intros data fuel' off out rest Hd Hf; [lia|].
  destruct fuel' as [|fuel']; [lia|].
  cbn [stored_blocks inflate].
  destruct (Nat.leb_spec (length data) max_stored) as [Hle|Hgt].
  - now rewrite read_stored_block.
  - rewrite <- app_assoc, read_stored_block
      by (rewrite length_firstn; lia).
    rewrite IH; [|rewrite length_skipn; unfold max_stored in *; lia|lia].
    now rewrite <- app_assoc, firstn_skipn.
Qed.

Lemma stored_blocks_length fuel : forall data,
  (length data < fuel)%nat ->
  (length data <= length (stored_blocks fuel data))%nat.
Proof.
  induction fuel as [|fuel IH]; intros data Hd; [lia|].
  cbn [stored_blocks].
  destruct (Nat.leb_spec (length data) max_stored) as [Hle|Hgt].
  - unfold stored_block. cbn [length le16 app]. lia.
  - rewrite length_app. unfold stored_block at 1.
    cbn [length le16 app]. rewrite length_firstn.
    assert (Hs : (length (skipn max_stored data) < fuel)%nat)
      by (rewrite length_skipn; unfold max_stored in *; lia).
    specialize (IH _ Hs). rewrite length_skipn in IH. lia.
Qed.

Lemma stored_inflate_deflate (data : bytes) :
  Stored.NewReader (Stored.deflate data)
  = inr (stored_blocks (S (length data)) data ++ be32 (adler32 data))
  /\ Stored.ReadAll (stored_blocks (S (length data)) data
                     ++ be32 (adler32 data))
     = (data, None).
Proof.
  split; [reflexivity|].
  unfold Stored.ReadAll.
  rewrite inflate_stored_blocks; [|lia|].
  2:{ rewrite length_app.
      pose proof (stored_blocks_length (S (length data)) data ltac:(lia)).
      lia. }
  cbn [app]. pose proof (uint32_be32 _ (adler32_range data)) as E.
  cbn [be32] in *. rewrite E, Z.eqb_refl. reflexivity.
Qed.

(** The stored codec is a lawful [Zlib]. *)
Lemma stored_laws : ZlibLaws stored_zlib.
Proof.
  constructor. intros data. cbn [Reader deflate NewReader ReadAll stored_zlib].
  destruct (stored_inflate_deflate data) as [H1 H2]. eauto.
Qed.

End StoredCodec.

(** ** Reading an object: what [catFile] prints and when it stops *)

Section Store.

Context {zl : Zlib}.

(** The first zero byte of [data] sits at index [i]. *)
Lemma first_nul_split (data : bytes) (i : nat) :
  data !! i = Some x00 ->
  (forall j, (j < i)%nat -> data !! j <> Some x00) ->
  data = firstn i data ++ x00 :: skipn (S i) data
  /\ no_nul (firstn i data)
  /\ length (firstn i data) = i.
Proof.
  intros Hi Hbefore. split; [|split].
  - symmetry. now apply take_drop_middle.
  - apply Forall_lookup_2. intros j v Hj ->.
    apply lookup_take_Some in Hj as [Hj Hlt]. now apply (Hbefore j).
  - apply length_take_le. apply lookup_lt_Some in Hi. lia.
Qed.

(** C7. Unvalidated size field: when the first zero byte of the
    decompressed bytes is at index [i], what [catFile] takes as the
    content, and prints, is exactly the bytes after index [i]; nothing
    in the header is compared with their number, so a header declaring
    999 bytes in front of 2 bytes of content yields those 2 bytes. *)
Theorem unvalidated_size (data : bytes) (i : nat) :
  data !! i = Some x00 ->
  (forall j, (j < i)%nat -> data !! j <> Some x00) ->
  findNullByteIndex data = i
  /\ strip_header data = Some (skipn (i + 1) data)
  /\ (forall pprint object rest w file fileContents zReader err,
        catFile_file object = Some file ->
        FS.read (files w) file = inr fileContents ->
        NewReader fileContents = inr zReader ->
        ReadAll zReader = (data, err) ->
        catFile pprint (object :: rest) w
        = Returns tt (World (files w)
                        (stdout w ++ to_string (skipn (i + 1) data))
                        (stderr w)))
  /\ strip_header (of_string "blob 999" ++ x00 :: of_string "hi")
     = Some (of_string "hi").
Proof.
  intros Hi Hbefore.
  destruct (first_nul_split data i Hi Hbefore) as (Hsplit & Hno & Hlen).
  assert (Hfind : findNullByteIndex data = i).
  { rewrite Hsplit, findNullByteIndex_app by exact Hno. exact Hlen. }
  assert (Hstrip : strip_header data = Some (skipn (i + 1) data)).
  { rewrite Hsplit at 1. rewrite strip_header_app by exact Hno.
    now rewrite Nat.add_1_r. }
  split; [exact Hfind|]. split; [exact Hstrip|]. split; [|reflexivity].
  intros pprint object rest w file fileContents zReader err Hf Hr Hn Ha.
  rewrite (catFile_eval _ _ _ _ _ Hf), Hr, Hn, Ha. cbn [fst].
  now rewrite Hstrip.
Qed.

(** C5, as the code has it: on decompressed bytes without a zero byte
    the slice expression of [catFile] is out of range and the command
    panics; no error is reported. *)
Theorem malformed_object_panics
    (pprint : bool) (object : string) (rest : list string) (w : world)
    (file : string) (fileContents : bytes) (zReader : Reader) :
  catFile_file object = Some file ->
  FS.read (files w) file = inr fileContents ->
  NewReader fileContents = inr zReader ->
  no_nul (fst (ReadAll zReader)) ->
  strip_header (fst (ReadAll zReader)) = None
  /\ catFile pprint (object :: rest) w = Panics w.
Proof.
  intros Hf Hr Hn Hno.
  pose proof (strip_header_none _ Hno) as Hs. split; [exact Hs|].
  now rewrite (catFile_eval _ _ _ _ _ Hf), Hr, Hn, Hs.
Qed.

(** The two failures [catFile] does report: a file that cannot be read
    and a stream whose header the reader refuses. *)
Lemma catFile_not_found pprint object rest w file op e :
  catFile_file object = Some file ->
  FS.read (files w) file = inl (op, e) ->
  exists msg, catFile pprint (object :: rest) w
              = Exits 1 (World (files w) (stdout w)
                           (stderr w ++ msg ++ newline)).
Proof.
  intros Hf Hr. rewrite (catFile_eval _ _ _ _ _ Hf), Hr. eauto.
Qed.

Lemma catFile_bad_header pprint object rest w file fileContents err :
  catFile_file object = Some file ->
  FS.read (files w) file = inr fileContents ->
  NewReader fileContents = inl err ->
  exists msg, catFile pprint (object :: rest) w
              = Exits 1 (World (files w) (stdout w)
                           (stderr w ++ msg ++ newline)).
Proof.
  intros Hf Hr Hn. rewrite (catFile_eval _ _ _ _ _ Hf), Hr, Hn. eauto.
Qed.

(** C6, as the code has it: an error met while the stream is read to its
    end (a truncated stream, a wrong checksum) is dropped; [catFile]
    goes on with the bytes decoded so far and returns normally. *)
Theorem read_error_dropped
    (pprint : bool) (object : string) (rest : list string) (w : world)
    (file : string) (fileContents : bytes) (zReader : Reader)
    (data content : bytes) (err : error) :
  catFile_file object = Some file ->
  FS.read (files w) file = inr fileContents ->
  NewReader fileContents = inr zReader ->
  ReadAll zReader = (data, Some err) ->
  strip_header data = Some content ->
  catFile pprint (object :: rest) w
  = Returns tt (World (files w) (stdout w ++ to_string content) (stderr w)).
Proof.
  intros Hf Hr Hn Ha Hs.
  rewrite (catFile_eval _ _ _ _ _ Hf), Hr, Hn, Ha. cbn [fst].
  now rewrite Hs.
Qed.

(** C10. Short identifiers: the file name is computed exactly for the
    identifiers of at least 2 bytes; on a shorter one [object[:2]] is out
    of range and [catFile] panics. *)
Theorem short_identifier
    (pprint : bool) (object : string) (rest : list string) (w : world) :
  (catFile_file object = None <-> (String.length object < 2)%nat)
  /\ ((String.length object < 2)%nat ->
      catFile pprint (object :: rest) w = Panics w).
Proof.
  split; [split|].
  - intros Hnone. destruct (Nat.lt_ge_cases (String.length object) 2) as [|Hge];
      [assumption|]. rewrite catFile_file_some in Hnone by exact Hge.
    discriminate.
  - apply catFile_file_none.
  - apply catFile_short.
Qed.

(** C9. Determinism: the identifier [hashObject] prints is a function of
    the content of the file: two runs on the same content, in any two
    worlds, with or without [-w], print the same 40 characters. *)
Theorem determinism
    (write1 write2 : bool) (file1 file2 : string) (rest1 rest2 : list string)
    (w1 w2 : world) (c : bytes) :
  FS.read (files w1) file1 = inr c ->
  FS.read (files w2) file2 = inr c ->
  exists identifier : string,
    String.length identifier = 40%nat
    /\ stdout (world_of (hashObject write1 (file1 :: rest1) w1))
       = (stdout w1 ++ identifier ++ newline)%string
    /\ stdout (world_of (hashObject write2 (file2 :: rest2) w2))
       = (stdout w2 ++ identifier ++ newline)%string.
Proof.
  intros H1 H2. exists (to_string (sha1Hash (blobContents c))).
  split; [now rewrite length_to_string, sha1Hash_length|].
  split; now apply hashObject_stdout.
Qed.


End Store.

(** ** What [initCmd] gives to [hashObject] *)

Section AfterInit.

Implicit Types fs : gmap FS.path FS.node.

Lemma search_weaken fs fs' dir :
  fs ⊆ fs' -> FS.search fs dir = None -> FS.search fs' dir = None.
Proof.
  intros Hsub. destruct dir as [|d dir]; [reflexivity|]. cbn.
  destruct (fs !! (d :: dir)) as [[|?]|] eqn:E; try discriminate.
  intros _. now rewrite (lookup_weaken _ _ _ _ E Hsub).
Qed.

Lemma walk_weaken fs fs' cs : forall cur p,
  fs ⊆ fs' -> FS.walk fs cur cs = inr p -> FS.walk fs' cur cs = inr p.
Proof.
  induction cs as [|c cs IH]; intros cur p Hsub; [trivial|].
  cbn [FS.walk]. destruct (FS.search fs cur) as [e|] eqn:E; [discriminate|].
  rewrite (search_weaken _ _ _ Hsub E). now apply IH.
Qed.

(** A file that can be read can still be read, with the same content,
    after entries have been added. *)
Lemma read_weaken fs fs' name content :
  fs ⊆ fs' -> FS.read fs name = inr content -> FS.read fs' name = inr content.
Proof.
  intros Hsub. unfold FS.read.
  destruct (String.eqb name EmptyString); [discriminate|].
  destruct (FS.walk fs [] (FS.components name)) as [e|p] eqn:E;
    [discriminate|].
  rewrite (walk_weaken _ _ _ _ _ Hsub E).
  destruct p as [|c p]; [discriminate|].
  destruct (fs !! (c :: p)) as [[|content']|] eqn:El; try discriminate.
  intros [= <-]. now rewrite (lookup_weaken _ _ _ _ El Hsub).
Qed.

(** On a root without [.git], the files [initCmd] leaves. *)
Lemma initCmd_fresh_files w :
  no_git (files w) ->
  initCmd w
  = Returns tt
      (World (<[ [".git"; "HEAD"] := FS.File headContent ]>
                (<[ [".git"; "refs"] := FS.Dir ]>
                   (<[ [".git"; "objects"] := FS.Dir ]>
                      (<[ [".git"] := FS.Dir ]> (files w)))))
             (stdout w ++ init_message) (stderr w)).
Proof.
  destruct w as [fs out err]. cbn [files stdout stderr]. intros Hn.
  unfold initCmd, create_folders, os_WriteFile, os_Create, os_Mkdir, File_Write,
    Println, Print, bind, ret, set_files.
  cbn [files stdout stderr].
  rewrite mkdir_git, (Hn []). step_proc.
  rewrite mkdir_objects. fs_lookup. rewrite (Hn ["objects"]). step_proc.
  rewrite mkdir_refs. fs_lookup. rewrite (Hn ["refs"]). step_proc.
  rewrite creat_HEAD. fs_lookup. rewrite (Hn ["HEAD"]). step_proc.
  now rewrite append_created.
Qed.

(** After [initCmd] on such a root the store is ready for every object,
    and the files that were there are still read as before. *)
Lemma store_ready_after_init w w1 c :
  no_git (files w) ->
  initCmd w = Returns tt w1 ->
  store_ready (files w1) (sha1Hash (blobContents c))
  /\ (forall name content,
        FS.read (files w) name = inr content ->
        FS.read (files w1) name = inr content).
Proof.
  intros Hn Hinit. rewrite (initCmd_fresh_files w Hn) in Hinit.
  injection Hinit as <-. cbn [files]. split.
  - unfold store_ready, shard_file, shard_dir. cbn [app].
    repeat split; fs_lookup; try reflexivity.
    + left. apply Hn.
    + rewrite Hn. discriminate.
  - intros name content. apply read_weaken.
    repeat (etrans; [|apply insert_subseteq; fs_lookup; apply Hn]).
    reflexivity.
Qed.

End AfterInit.

(** ** Writing an object and reading it back *)

Section RoundTrip.

Context {zl : Zlib} {laws : ZlibLaws zl}.

(** C1. Round trip: in a store that is laid out, [hashObject -w] on a
    file of content [c] returns, having printed the identifier; the
    object it has written decompresses to the canonical form of [c]; and
    [catFile] on that identifier returns, having printed exactly [c]:
    the header, which starts with "blob", is what it strips. *)
Theorem round_trip
    (pprint : bool) (file : string) (rest rest' : list string)
    (w : world) (c : bytes) :
  FS.read (files w) file = inr c ->
  store_ready (files w) (sha1Hash (blobContents c)) ->
  exists (w1 w2 : world) (zReader : Reader),
    hashObject true (file :: rest) w = Returns tt w1
    /\ stdout w1
       = (stdout w ++ to_string (sha1Hash (blobContents c)) ++ newline)%string
    /\ files w1 !! shard_file (sha1Hash (blobContents c))
       = Some (FS.File (deflate (blobContents c)))
    /\ NewReader (deflate (blobContents c)) = inr zReader
    /\ ReadAll zReader
       = (of_string "blob " ++ of_string (Sprintf_d (length c)) ++ x00 :: c,
          None)
    /\ catFile pprint (to_string (sha1Hash (blobContents c)) :: rest') w1
       = Returns tt w2
    /\ stdout w2 = (stdout w1 ++ to_string c)%string
    /\ stderr w2 = stderr w
    /\ files w2 = files w1.
Proof.
  intros Hread Hready.
  pose proof (hashObject_writes file rest w c Hread Hready) as Hput.
  destruct (inflate_deflate (blobContents c)) as (zReader & Hnew & Hall).
  destruct (hash_names c) as (Hd & Hf).
  pose proof (sha1Hash_length (blobContents c)) as Hlen.
  destruct Hready as (Hgit & Hobj & _ & _).
  revert Hput Hd Hf Hlen. generalize (sha1Hash (blobContents c)) as hash.
  intros hash Hput Hd Hf Hlen.
  set (fs1 := <[shard_file hash := FS.File (deflate (blobContents c))]>
                (<[shard_dir hash := FS.Dir]> (files w))) in *.
  assert (Hfile : fs1 !! shard_file hash
                  = Some (FS.File (deflate (blobContents c))))
    by (subst fs1; apply lookup_insert_eq).
  assert (Hget : catFile_file (to_string hash)
                 = Some (object_file (to_string (firstn 2 hash))
                                     (to_string (skipn 2 hash)))).
  { rewrite catFile_file_hash, hashObject_file_some by lia. reflexivity. }
  assert (Hfs : FS.read fs1 (object_file (to_string (firstn 2 hash))
                                         (to_string (skipn 2 hash)))
                = inr (deflate (blobContents c))).
  { rewrite read_object; try assumption.
    - unfold shard_file, shard_dir in Hfile. cbn [app] in Hfile.
      now rewrite Hfile.
    - subst fs1. unfold shard_file, shard_dir. cbn [app].
      now fs_lookup.
    - subst fs1. unfold shard_file, shard_dir. cbn [app].
      now fs_lookup.
    - subst fs1. unfold shard_file, shard_dir. cbn [app].
      now fs_lookup. }
  eexists _, _, zReader.
  split; [exact Hput|]. cbn [stdout stderr files].
  split; [reflexivity|]. split; [exact Hfile|]. split; [exact Hnew|].
  split; [rewrite Hall, blobContents_eq; reflexivity|].
  split.
  { rewrite (catFile_eval _ _ _ _ _ Hget). cbn [files]. rewrite Hfs, Hnew, Hall.
    cbn [fst stdout stderr]. rewrite strip_header_blobContents. reflexivity. }
  cbn [stdout stderr files]. repeat split.
Qed.

End RoundTrip.

(** ** The commands on concrete files *)

Section Witnesses.

Local Existing Instance stored_zlib.

(** The scenario of the specification. *)
Example scenario_identifier :
  to_string (sha1Hash (blobContents (of_string "what is up, doc?")))
  = "bd9dbf5aae1a3862dd1526723246b20206e5fc37".
Proof. vm_compute. reflexivity. Qed.

Example empty_blob_identifier :
  to_string (sha1Hash (blobContents []))
  = "e69de29bb2d1d6434b8b29ae775ad8c2e48c5391".
Proof. vm_compute. reflexivity. Qed.

Lemma round_trip_witness :
  exists (w1 w2 : world),
    hashObject true ["hello.txt"]
      (repository_with "hello.txt" (of_string "what is up, doc?"))
    = Returns tt w1
    /\ catFile true
         [to_string (sha1Hash (blobContents (of_string "what is up, doc?")))]
         w1
       = Returns tt w2
    /\ stdout w2 = (stdout w1 ++ "what is up, doc?")%string.
Proof.
  destruct (round_trip (laws := stored_laws) true "hello.txt" [] []
              (repository_with "hello.txt" (of_string "what is up, doc?"))
              (of_string "what is up, doc?"))
    as (w1 & w2 & zReader & H1 & _ & _ & _ & _ & H3 & H4 & _).
  - vm_compute. reflexivity.
  - unfold store_ready. split; [|split; [|split]].
    + vm_compute. reflexivity.
    + vm_compute. reflexivity.
    + left. vm_compute. reflexivity.
    + vm_compute. discriminate.
  - exists w1, w2. split; [exact H1|]. split; [exact H3|exact H4].
Defined.

End Witnesses.

Section Examples.

Local Existing Instance stored_zlib.

(** The digests of FIPS 180 for the empty message, "abc" and the
    message of 448 bits. *)
Example sha1_empty :
  to_string (sha1Hash []) = "da39a3ee5e6b4b0d3255bfef95601890afd80709".
Proof. vm_compute. reflexivity. Qed.

Example sha1_abc :
  to_string (sha1Hash (of_string "abc"))
  = "a9993e364706816aba3e25717850c26c9cd0d89d".
Proof. vm_compute. reflexivity. Qed.

Example sha1_two_blocks :
  to_string (sha1Hash (of_string
    "abcdbcdecdefdefgefghfghighijhijkijkljklmklmnlmnomnopnopq"))
  = "84983e441c3bd26ebaae4aa1f95129e5e54670f1".
Proof. vm_compute. reflexivity. Qed.

(** What the stored reader makes of the object files above. *)
Example headerless_read :
  NewReader headerless_object = inr (skipn 2 headerless_object)
  /\ ReadAll (skipn 2 headerless_object) = (of_string "abc", None).
Proof. split; vm_compute; reflexivity. Qed.

Example bad_checksum_read :
  NewReader bad_checksum_object = inr (skipn 2 bad_checksum_object)
  /\ ReadAll (skipn 2 bad_checksum_object)
     = (canonical_abc, Some ErrChecksum).
Proof. split; vm_compute; reflexivity. Qed.

Example no_checksum_read :
  NewReader no_checksum_object = inr (skipn 2 no_checksum_object)
  /\ ReadAll (skipn 2 no_checksum_object)
     = (canonical_abc, Some ErrUnexpectedEOF).
Proof. split; vm_compute; reflexivity. Qed.

Example cut_read :
  NewReader cut_object = inr (skipn 2 cut_object)
  /\ ReadAll (skipn 2 cut_object)
     = (of_string "blob 3" ++ x00 :: of_string "ab", Some ErrUnexpectedEOF).
Proof. split; vm_compute; reflexivity. Qed.

(** A stream that ends before its checksum, and one that ends within
    its data, are printed like a good one. *)
Example no_checksum_printed :
  catFile true ["0a5159e4fd9efdc3530c880fa15b672f08d47421"]
    (store_with "0a" "5159e4fd9efdc3530c880fa15b672f08d47421"
       no_checksum_object)
  = Returns tt
      (World (files (store_with "0a" "5159e4fd9efdc3530c880fa15b672f08d47421"
                       no_checksum_object)) "abc" "").
Proof. vm_compute. reflexivity. Qed.

Example cut_printed :
  catFile true ["0a5159e4fd9efdc3530c880fa15b672f08d47421"]
    (store_with "0a" "5159e4fd9efdc3530c880fa15b672f08d47421" cut_object)
  = Returns tt
      (World (files (store_with "0a" "5159e4fd9efdc3530c880fa15b672f08d47421"
                       cut_object)) "ab" "").
Proof. vm_compute. reflexivity. Qed.

(** A header that the reader refuses, and a missing object, end the
    command with status 1. *)
Example bad_header_exits :
  exists w1,
    catFile true ["0a5159e4fd9efdc3530c880fa15b672f08d47421"]
      (store_with "0a" "5159e4fd9efdc3530c880fa15b672f08d47421"
         (of_string "not zlib"))
    = Exits 1 w1.
Proof. eexists. vm_compute. reflexivity. Qed.

Example missing_object_exits :
  exists w1,
    catFile true ["0a5159e4fd9efdc3530c880fa15b672f08d47421"]
      (world_of (initCmd fresh_world))
    = Exits 1 w1.
Proof. eexists. vm_compute. reflexivity. Qed.

Lemma unvalidated_size_witness :
  findNullByteIndex (of_string "blob 999" ++ x00 :: of_string "hi") = 8%nat
  /\ strip_header (of_string "blob 999" ++ x00 :: of_string "hi")
     = Some (of_string "hi").
Proof.
  destruct (unvalidated_size
              (of_string "blob 999" ++ x00 :: of_string "hi") 8)
    as (H1 & H2 & _).
  - reflexivity.
  - intros j Hj. do 8 (destruct j as [|j]; [discriminate|]). lia.
  - split; [exact H1 | exact H2].
Defined.

Lemma malformed_object_panics_witness :
  catFile true ["0a5159e4fd9efdc3530c880fa15b672f08d47421"]
    (store_with "0a" "5159e4fd9efdc3530c880fa15b672f08d47421"
       headerless_object)
  = Panics (store_with "0a" "5159e4fd9efdc3530c880fa15b672f08d47421"
              headerless_object).
Proof.
  refine (proj2 (malformed_object_panics true
                   "0a5159e4fd9efdc3530c880fa15b672f08d47421" []
                   (store_with "0a" "5159e4fd9efdc3530c880fa15b672f08d47421"
                      headerless_object)
                   ".git/objects/0a/5159e4fd9efdc3530c880fa15b672f08d47421"
                   headerless_object
                   (skipn 2 headerless_object) _ _ _ _)).
  - reflexivity.
  - vm_compute. reflexivity.
  - vm_compute. reflexivity.
  - vm_compute. repeat constructor; discriminate.
Defined.

Lemma read_error_dropped_witness :
  catFile true ["0a5159e4fd9efdc3530c880fa15b672f08d47421"]
    (store_with "0a" "5159e4fd9efdc3530c880fa15b672f08d47421"
       bad_checksum_object)
  = Returns tt
      (World (files (store_with "0a" "5159e4fd9efdc3530c880fa15b672f08d47421"
                       bad_checksum_object))
             ("" ++ to_string (of_string "abc")) "").
Proof.
  refine (read_error_dropped true
            "0a5159e4fd9efdc3530c880fa15b672f08d47421" []
            (store_with "0a" "5159e4fd9efdc3530c880fa15b672f08d47421"
               bad_checksum_object)
            ".git/objects/0a/5159e4fd9efdc3530c880fa15b672f08d47421"
            bad_checksum_object
            (skipn 2 bad_checksum_object)
            canonical_abc (of_string "abc") ErrChecksum _ _ _ _ _).
  - reflexivity.
  - vm_compute. reflexivity.
  - vm_compute. reflexivity.
  - vm_compute. reflexivity.
  - vm_compute. reflexivity.
Defined.

Lemma short_identifier_witness :
  catFile true ["a"] fresh_world = Panics fresh_world.
Proof.
  apply (proj2 (short_identifier true "a" [] fresh_world)).
  simpl. lia.
Defined.

Lemma determinism_witness :
  exists identifier : string,
    String.length identifier = 40%nat
    /\ stdout (world_of (hashObject true ["hello.txt"]
                 (repository_with "hello.txt" (of_string "what is up, doc?"))))
       = (stdout (repository_with "hello.txt" (of_string "what is up, doc?"))
          ++ identifier ++ newline)%string
    /\ stdout (world_of (hashObject false ["copy.txt"]
                 (World {[ ["copy.txt"]
                           := FS.File (of_string "what is up, doc?") ]}
                        "" "")))
       = (stdout (World {[ ["copy.txt"]
                           := FS.File (of_string "what is up, doc?") ]}
                        "" "")
          ++ identifier ++ newline)%string.
Proof.
  apply (determinism true false "hello.txt" "copy.txt" [] []
           (repository_with "hello.txt" (of_string "what is up, doc?"))
           (World {[ ["copy.txt"] := FS.File (of_string "what is up, doc?") ]}
                  "" "")
           (of_string "what is up, doc?")).
  - vm_compute. reflexivity.
  - vm_compute. reflexivity.
Defined.

End Examples.

(** * Further properties of the commands *)

(** ** The file system at the path of an object, in every state *)

Ltac walk_any :=
  unfold FS.walk_parent; cbv [rev]; cbn [app];
  repeat (cbn -[lookup insert FS.step];
          first [ rewrite step_git
                | rewrite step_objects
                | erewrite step_plain by eassumption
                | match goal with
                  | H : ?fs !! ?p = _ |- context [?fs !! ?p] => rewrite H
                  end ];
          cbn [app]).

Section ObjectPathsTotal.

Implicit Types fs : gmap FS.path FS.node.

Lemma mkdir_shard_total fs dir :
  plain_name dir ->
  FS.mkdir fs (object_folder dir)
  = match fs !! [".git"] with
    | Some FS.Dir =>
        match fs !! [".git"; "objects"] with
        | Some FS.Dir =>
            match fs !! [".git"; "objects"; dir] with
            | Some _ => inl FS.EEXIST
            | None => inr (<[ [".git"; "objects"; dir] := FS.Dir ]> fs)
            end
        | Some (FS.File _) => inl FS.ENOTDIR
        | None => inl FS.ENOENT
        end
    | Some (FS.File _) => inl FS.ENOTDIR
    | None => inl FS.ENOENT
    end.
Proof.
  intros Hd.
  destruct (fs !! [".git"]) as [[|?]|] eqn:Hgit;
    [destruct (fs !! [".git"; "objects"]) as [[|?]|] eqn:Hobj|..];
    [now apply mkdir_shard|..];
    unfold FS.mkdir;
    rewrite object_folder_not_empty, components_object_folder by apply Hd;
    pose proof (strip_trailing_plain [".git"; "objects"] dir Hd) as E;
    cbn [app] in E; rewrite E; clear E;
    walk_any; reflexivity.
Qed.

Lemma creat_object_total fs dir filename :
  plain_name dir -> plain_name filename ->
  FS.creat fs (object_file dir filename)
  = match fs !! [".git"] with
    | Some FS.Dir =>
        match fs !! [".git"; "objects"] with
        | Some FS.Dir =>
            match fs !! [".git"; "objects"; dir] with
            | Some FS.Dir =>
                match fs !! [".git"; "objects"; dir; filename] with
                | Some FS.Dir => inl FS.EISDIR
                | _ => inr ([".git"; "objects"; dir; filename],
                            <[ [".git"; "objects"; dir; filename]
                               := FS.File [] ]> fs)
                end
            | Some (FS.File _) => inl FS.ENOTDIR
            | None => inl FS.ENOENT
            end
        | Some (FS.File _) => inl FS.ENOTDIR
        | None => inl FS.ENOENT
        end
    | Some (FS.File _) => inl FS.ENOTDIR
    | None => inl FS.ENOENT
    end.
Proof.
  intros Hd Hf.
  destruct (fs !! [".git"]) as [[|?]|] eqn:Hgit;
    [destruct (fs !! [".git"; "objects"]) as [[|?]|] eqn:Hobj;
     [destruct (fs !! [".git"; "objects"; dir]) as [[|?]|] eqn:Hdir|..]|..];
    [now apply creat_object|..];
    unfold FS.creat;
    rewrite object_file_not_empty, components_object_file
      by (apply Hd || apply Hf);
    walk_any; reflexivity.
Qed.

End ObjectPathsTotal.

(** ** [findNullByteIndex] on every input *)

Section FirstNul.

Lemma range_find_nul_none_inv data : forall i,
  range_find_nul i data = None -> no_nul data.
Proof.
  induction data as [|v data IH]; intros i; [constructor|].
  cbn. destruct (is_nul v) eqn:Hv; [discriminate|].
  intros H. constructor; [now apply is_nul_false | now apply (IH (S i))].
Qed.

(** X1. [findNullByteIndex] returns an index between 0 and [len(data)];
    it is [len(data)] exactly when [data] has no zero byte; otherwise
    the byte at the index is zero and no byte before it is. *)
Theorem findNullByteIndex_first (data : bytes) :
  (findNullByteIndex data <= length data)%nat
  /\ (findNullByteIndex data = length data <-> no_nul data)
  /\ ((findNullByteIndex data < length data)%nat ->
      data !! findNullByteIndex data = Some x00)
  /\ (forall j, (j < findNullByteIndex data)%nat -> data !! j <> Some x00).
Proof.
  split; [apply findNullByteIndex_le|].
  unfold findNullByteIndex, bytes in *.
  destruct (range_find_nul 0 data) as [i|] eqn:E.
  - apply range_find_nul_some in E as (hdr & rest & -> & Hno & ->).
    cbn [Nat.add]. rewrite length_app. cbn [length].
    split; [|split].
    + split; [lia|]. intros Hall. exfalso.
      apply Forall_app in Hall as [_ Hall]. inversion Hall; congruence.
    + intros _. now apply list_lookup_middle.
    + intros j Hj. rewrite lookup_app_l by exact Hj. intros Hx.
      now apply (Forall_lookup_1 _ _ _ _ Hno Hx).
  - apply range_find_nul_none_inv in E. split; [|split].
    + split; [intros _; exact E | reflexivity].
    + lia.
    + intros j Hj Hx. now apply (Forall_lookup_1 _ _ _ _ E Hx).
Qed.

End FirstNul.

(** ** [catFile] in every state *)

Section CatFileTotal.

Context {zl : Zlib}.

Implicit Types fs : gmap FS.path FS.node.

Lemma catFile_file_cases object :
  ((String.length object < 2)%nat /\ catFile_file object = None)
  \/ exists file, catFile_file object = Some file.
Proof.
  destruct (Nat.lt_ge_cases (String.length object) 2) as [Hlt|Hge].
  - left. split; [exact Hlt | now apply catFile_file_none].
  - right. eexists. now apply catFile_file_some.
Qed.

Lemma catFile_body_read_only (pprint : bool) (args : list string) (w : world) :
  files (world_of (catFile pprint args w)) = files w
  /\ match catFile pprint args w with
     | Returns _ w1 => stderr w1 = stderr w
     | Exits code w1 => code = 1%Z /\ stdout w1 = stdout w
     | Panics w1 => w1 = w
     end.
Proof.
  destruct args as [|object rest]; [split; [reflexivity | now split]|].
  destruct (catFile_file_cases object) as [[Hlt _]|[file Hf]].
  - rewrite catFile_short by exact Hlt. split; reflexivity.
  - rewrite (catFile_eval _ _ _ _ _ Hf).
    destruct (FS.read (files w) file) as [[op e]|contents];
      [split; [reflexivity | now split]|].
    destruct (NewReader contents) as [err|zReader];
      [split; [reflexivity | now split]|].
    destruct (strip_header (fst (ReadAll zReader)));
      split; reflexivity.
Qed.

Lemma string_app_assoc (a b c : string) :
  ((a ++ b) ++ c = a ++ (b ++ c))%string.
Proof.
  induction a as [|x a IH]; [reflexivity|].
  rewrite !string_app_cons. now rewrite IH.
Qed.

Lemma components_not_nil s : FS.components s <> [].
Proof.
  destruct s as [|c s]; [discriminate|]. cbn [FS.components].
  destruct (Ascii.eqb c "/"); [discriminate|].
  destruct (FS.components s); discriminate.
Qed.

Lemma components_snoc_slash s :
  FS.components (s ++ "/") = FS.components s ++ [EmptyString].
Proof.
  induction s as [|c s IH]; [reflexivity|].
  rewrite string_app_cons. cbn [FS.components]. rewrite IH.
  destruct (Ascii.eqb c "/"); [reflexivity|].
  destruct (FS.components s) as [|h t] eqn:E; [now apply components_not_nil in E|].
  reflexivity.
Qed.

Lemma walk_app fs cs1 cs2 : forall cur,
  FS.walk fs cur (cs1 ++ cs2)
  = match FS.walk fs cur cs1 with
    | inl e => inl e
    | inr p => FS.walk fs p cs2
    end.
Proof.
  induction cs1 as [|c cs1 IH]; intros cur; [reflexivity|].
  cbn [app FS.walk]. destruct (FS.search fs cur); [reflexivity | apply IH].
Qed.

(** A name that ends in a slash is never read as a file. *)
Lemma read_slash fs s :
  exists op e, FS.read fs (s ++ "/") = inl (op, e).
Proof.
  unfold FS.read. destruct (String.eqb (s ++ "/") EmptyString); [eauto|].
  rewrite components_snoc_slash, walk_app.
  destruct (FS.walk fs [] (FS.components s)) as [e|p]; [eauto|].
  cbn [FS.walk]. destruct (FS.search fs p) as [e|] eqn:E; [eauto|].
  change (FS.step p EmptyString) with p.
  destruct p as [|c p]; [eauto|]. cbn in E.
  destruct (fs !! (c :: p)) as [[|?]|]; try discriminate. eauto.
Qed.

(** X3. An identifier of exactly 2 bytes names a directory,
    ".git/objects/xx/": [catFile] never prints anything for it and
    exits with status 1 after a message, whatever the files are. *)
Theorem catFile_two_bytes
    (pprint : bool) (object : string) (rest : list string) (w : world) :
  String.length object = 2%nat ->
  catFile_file object = Some (".git/objects/" ++ object ++ "/")%string
  /\ exists msg,
       catFile pprint (object :: rest) w
       = Exits 1 (World (files w) (stdout w) (stderr w ++ msg ++ newline)).
Proof.
  intros Hlen.
  assert (Hf : catFile_file object
               = Some (".git/objects/" ++ object ++ "/")%string).
  { rewrite catFile_file_some by lia. rewrite Hlen. cbn [Nat.sub].
    rewrite <- Hlen at 1. rewrite substring_all.
    destruct object as [|a [|b [|c object]]]; try discriminate. reflexivity. }
  split; [exact Hf|].
  destruct (read_slash (files w) (".git/objects/" ++ object)) as (op & e & Hr).
  rewrite string_app_assoc in Hr.
  exact (catFile_not_found pprint object rest w _ op e Hf Hr).
Qed.

End CatFileTotal.

(** ** [hashObject] in every state *)

Ltac fs_frame :=
  repeat first [ rewrite lookup_insert_eq
               | rewrite lookup_insert_ne by (discriminate || congruence) ].

Ltac hash_unfold Hread :=
  unfold hashObject, bind, checked, ret, os_ReadFile, head;
  rewrite Hread; cbv zeta;
  rewrite slice_to_some, slice_from_some by (rewrite sha1Hash_length; lia);
  unfold Println, Print, os_Mkdir, os_Create, Writer_Write, Writer_Close,
    File_Write, Fprintln_Stderr, os_Exit, bind, ret;
  unfold store_ready in *; unfold shard_file, shard_dir in *; cbn [app] in *.

Section HashObjectTotal.

Context {zl : Zlib}.

Implicit Types fs : gmap FS.path FS.node.

(** X4. [hashObject] touches two places at most: with a readable file,
    every entry other than the directory and the file of the identifier
    is left as it was; the directory is either left as it was or created
    where nothing was; the file is either left as it was or holds the
    compressed canonical form; and without [-w] no entry changes. *)
Theorem hashObject_frame
    (write : bool) (file : string) (rest : list string) (w : world)
    (c : bytes) :
  FS.read (files w) file = inr c ->
  let hash := sha1Hash (blobContents c) in
  let fs1 := files (world_of (hashObject write (file :: rest) w)) in
  (forall p, p <> shard_dir hash -> p <> shard_file hash ->
             fs1 !! p = files w !! p)
  /\ (fs1 !! shard_dir hash = files w !! shard_dir hash
      \/ (files w !! shard_dir hash = None
          /\ fs1 !! shard_dir hash = Some FS.Dir))
  /\ (fs1 !! shard_file hash = files w !! shard_file hash
      \/ fs1 !! shard_file hash
         = Some (FS.File (deflate (blobContents c))))
  /\ (write = false -> fs1 = files w).
Proof.
  intros Hread. cbv zeta.
  destruct (hash_names c) as (Hd & Hf). revert Hd Hf.
  hash_unfold Hread.
  generalize (sha1Hash (blobContents c)) as hash.
  generalize (blobContents c) as blob. intros blob hash Hd Hf.
  destruct w as [fs out err]. cbn [files stdout stderr] in *.
  destruct write; [|cbn; repeat split; auto].
  rewrite mkdir_shard_total by assumption. cbn [files stdout stderr].
  destruct (fs !! [".git"]) as [[|?]|] eqn:Hgit;
    [|hash_step; repeat split; auto; discriminate..].
  destruct (fs !! [".git"; "objects"]) as [[|?]|] eqn:Hobj;
    [|hash_step; repeat split; auto; discriminate..].
  destruct (fs !! [".git"; "objects"; to_string (firstn 2 hash)])
    as [[|?]|] eqn:Hdir; hash_step;
    rewrite creat_object_total by assumption; fs_frame;
    rewrite ?Hgit, ?Hobj, ?Hdir;
    try (hash_step; repeat split; auto; discriminate);
    destruct (fs !! [".git"; "objects"; to_string (firstn 2 hash);
                     to_string (skipn 2 hash)]) as [[|?]|] eqn:Hfile;
    hash_step; rewrite ?append_created; cbn [files];
    (split; [intros p Hp1 Hp2; now fs_frame|]);
    (split; [fs_frame; auto|]);
    (split; [fs_frame; auto|]); discriminate.
Qed.

(** X5. Writing the same content again changes nothing: after a first
    [hashObject -w] in a ready store, the store is still ready and a
    second one, on any file with that content, returns and leaves the
    files as they are. *)
Theorem hashObject_again
    (file file' : string) (rest rest' : list string) (w : world) (c : bytes) :
  FS.read (files w) file = inr c ->
  store_ready (files w) (sha1Hash (blobContents c)) ->
  exists w1,
    hashObject true (file :: rest) w = Returns tt w1
    /\ store_ready (files w1) (sha1Hash (blobContents c))
    /\ (FS.read (files w1) file' = inr c ->
        exists w2, hashObject true (file' :: rest') w1 = Returns tt w2
                   /\ files w2 = files w1
                   /\ stdout w2
                      = (stdout w1 ++ to_string (sha1Hash (blobContents c))
                         ++ newline)%string).
Proof.
  intros Hread Hready.
  pose proof (hashObject_writes file rest w c Hread Hready) as Hput.
  match type of Hput with _ = Returns tt ?x => set (w1 := x) in * end.
  exists w1. split; [exact Hput|].
  assert (Hready1 : store_ready (files w1) (sha1Hash (blobContents c))).
  { destruct Hready as (Hgit & Hobj & _ & _).
    subst w1. unfold store_ready, shard_file, shard_dir. cbn [app files].
    repeat split; fs_frame; auto; discriminate. }
  split; [exact Hready1|]. intros Hread'.
  rewrite (hashObject_writes file' rest' w1 c Hread' Hready1).
  eexists. split; [reflexivity|]. cbn [files stdout]. split; [|reflexivity].
  subst w1. cbn [files].
  rewrite (insert_id _ (shard_dir _) FS.Dir).
  - apply insert_insert_eq.
  - unfold shard_file, shard_dir. cbn [app]. now fs_frame.
Qed.

(** X6. [hashObject -w] on a readable file returns exactly when the
    store is ready for the identifier.  Otherwise it has printed the
    identifier all the same, exits with status 1 after a message, and
    has left every entry as it was, the directory of the identifier
    apart. *)
Theorem hashObject_needs_store
    (file : string) (rest : list string) (w : world) (c : bytes) :
  FS.read (files w) file = inr c ->
  let hash := sha1Hash (blobContents c) in
  (store_ready (files w) hash
   /\ exists w1, hashObject true (file :: rest) w = Returns tt w1)
  \/ (~ store_ready (files w) hash
      /\ exists w1 msg,
           hashObject true (file :: rest) w = Exits 1 w1
           /\ stdout w1 = (stdout w ++ to_string hash ++ newline)%string
           /\ stderr w1 = (stderr w ++ msg ++ newline)%string
           /\ forall p, p <> shard_dir hash -> files w1 !! p = files w !! p).
Proof.
  intros Hread. cbv zeta.
  destruct (hash_names c) as (Hd & Hf). revert Hd Hf.
  hash_unfold Hread.
  generalize (sha1Hash (blobContents c)) as hash.
  generalize (blobContents c) as blob. intros blob hash Hd Hf.
  destruct w as [fs out err]. cbn [files stdout stderr] in *.
  rewrite mkdir_shard_total by assumption. cbn [files stdout stderr].
  destruct (fs !! [".git"]) as [[|?]|] eqn:Hgit;
    [|right; split; [intros (? & _); congruence|];
      hash_step; eauto 10..].
  destruct (fs !! [".git"; "objects"]) as [[|?]|] eqn:Hobj;
    [|right; split; [intros (_ & ? & _); congruence|];
      hash_step; eauto 10..].
  destruct (fs !! [".git"; "objects"; to_string (firstn 2 hash)])
    as [[|?]|] eqn:Hdir; hash_step;
    rewrite creat_object_total by assumption; fs_frame;
    rewrite ?Hgit, ?Hobj, ?Hdir.
  - (* the directory is there *)
    destruct (fs !! [".git"; "objects"; to_string (firstn 2 hash);
                     to_string (skipn 2 hash)]) as [[|?]|] eqn:Hfile;
      hash_step.
    + right. split; [intros (_ & _ & _ & ?); congruence|]. eauto 10.
    + left. split; [|eauto]. repeat split; auto; congruence.
    + left. split; [|eauto]. repeat split; auto; congruence.
  - (* a regular file is in its place *)
    right. split; [intros (_ & _ & [?|?] & _); congruence|].
    hash_step. eauto 10.
  - (* the directory is created *)
    destruct (fs !! [".git"; "objects"; to_string (firstn 2 hash);
                     to_string (skipn 2 hash)]) as [[|?]|] eqn:Hfile;
      hash_step.
    + right. split; [intros (_ & _ & _ & ?); congruence|].
      do 2 eexists. split; [reflexivity|]. cbn [files stdout stderr].
      split; [reflexivity|]. split; [reflexivity|].
      intros p Hp. now fs_frame.
    + left. split; [|eauto]. repeat split; auto; congruence.
    + left. split; [|eauto]. repeat split; auto; congruence.
Qed.

(** X7. How [hashObject] ends: it panics only when it has no argument,
    and then nothing was printed; it exits only with status 1, after a
    message on the standard error; it returns only after printing 40
    characters and a line feed, with nothing on the standard error. *)
Theorem hashObject_outcomes (write : bool) (args : list string) (w : world) :
  match hashObject write args w with
  | Returns _ w1 =>
      stderr w1 = stderr w
      /\ exists identifier, String.length identifier = 40%nat
           /\ stdout w1 = (stdout w ++ identifier ++ newline)%string
  | Exits code w1 =>
      code = 1%Z
      /\ exists msg, stderr w1 = (stderr w ++ msg ++ newline)%string
  | Panics w1 => args = [] /\ w1 = w
  end.
Proof.
  destruct args as [|file rest]; [now split|].
  destruct (FS.read (files w) file) as [[op e]|c] eqn:Hread.
  - unfold hashObject, bind, checked, ret, os_ReadFile, head.
    rewrite Hread. cbn. eauto.
  - assert (Hid : String.length (to_string (sha1Hash (blobContents c)))
                  = 40%nat)
      by now rewrite length_to_string, sha1Hash_length.
    revert Hid. hash_unfold Hread.
    generalize (sha1Hash (blobContents c)) as hash.
    generalize (blobContents c) as blob. intros blob hash Hid.
    destruct w as [fs out err]. cbn [files stdout stderr] in *.
    destruct write; [|cbn; eauto].
    match goal with
    | |- context [FS.mkdir ?a ?b] => destruct (FS.mkdir a b) as [[]|fs1]
    end; hash_step; eauto;
      match goal with
      | |- context [FS.creat ?a ?b] => destruct (FS.creat a b) as [e|[fd fs2]]
      end; hash_step; eauto.
Qed.

End HashObjectTotal.

(** ** [initCmd] in every state *)

Ltac init_unfold :=
  unfold initCmd, create_folders, os_WriteFile, os_Create, os_Mkdir, File_Write,
    Println, Print, Fprintln_Stderr, os_Exit, bind, ret, set_files;
  cbn [files stdout stderr].

Ltac init_cases fs tac :=
  rewrite mkdir_git;
  destruct (fs !! [".git"]) as [[|?]|] eqn:Hgit; step_proc;
    rewrite mkdir_objects; fs_lookup; rewrite ?Hgit; step_proc;
    try solve [tac];
    (destruct (fs !! [".git"; "objects"]) as [o|] eqn:Ho; step_proc;
     rewrite mkdir_refs; fs_lookup; rewrite ?Hgit; step_proc;
     (destruct (fs !! [".git"; "refs"]) as [r|] eqn:Hr; step_proc;
      rewrite creat_HEAD; fs_lookup; rewrite ?Hgit; step_proc;
      (destruct (fs !! [".git"; "HEAD"]) as [[|?]|] eqn:Hh; step_proc;
       rewrite ?append_created; cbn [files stdout stderr];
       try solve [tac]))).

Section InitTotal.

Implicit Types fs : gmap FS.path FS.node.

(** X8. [initCmd] succeeds exactly when [.git] is not a regular file and
    [.git/HEAD] is not a directory; otherwise it exits with status 1
    after a message on the standard error, and prints nothing on the
    standard output. *)
Theorem initCmd_succeeds_iff (w : world) :
  ((forall x, files w !! [".git"] <> Some (FS.File x))
   /\ files w !! [".git"; "HEAD"] <> Some FS.Dir
   /\ exists w1, initCmd w = Returns tt w1)
  \/ (((exists x, files w !! [".git"] = Some (FS.File x))
       \/ files w !! [".git"; "HEAD"] = Some FS.Dir)
      /\ exists w1 msg,
           initCmd w = Exits 1 w1
           /\ stdout w1 = stdout w
           /\ stderr w1 = (stderr w ++ msg ++ newline)%string).
Proof.
  destruct w as [fs out err]. init_unfold.
  init_cases fs
    ltac:(first
      [ left; repeat split; eauto; congruence
      | right; split; [eauto | do 2 eexists; repeat split; reflexivity] ]).
Qed.

(** X9. [initCmd] touches four places at most, however it ends: every
    entry other than [.git], [.git/objects], [.git/refs] and [.git/HEAD]
    is left as it was, and an entry that was there before is still
    there, unchanged unless it is [.git/HEAD]. *)
Theorem initCmd_frame (w : world) :
  (forall p,
     p <> [".git"] -> p <> [".git"; "objects"] -> p <> [".git"; "refs"] ->
     p <> [".git"; "HEAD"] ->
     files (world_of (initCmd w)) !! p = files w !! p)
  /\ (forall p x,
        p <> [".git"; "HEAD"] -> files w !! p = Some x ->
        files (world_of (initCmd w)) !! p = Some x).
Proof.
  destruct w as [fs out err]. init_unfold.
  init_cases fs
    ltac:(split;
          [ intros p H1 H2 H3 H4; cbn [world_of files];
            rewrite ?lookup_insert_ne by congruence; reflexivity
          | intros p x H4 Hp; cbn [world_of files];
            repeat (rewrite lookup_insert_ne; [|congruence]); exact Hp ]).
Qed.

End InitTotal.

(** ** The flags and [main] *)

Section MainTotal.

Context {zl : Zlib} {sc : Strconv}.

Lemma parseOne_not_flag f s :
  looks_like_flag s = false -> Flag.parseOne f s = Flag.NotAFlag.
Proof.
  unfold looks_like_flag, Flag.parseOne. intros H.
  replace ((String.length s <? 2)%nat || negb (Flag.byte_is s 0 "-"))
    with true; [reflexivity|].
  symmetry. apply andb_false_iff in H as [H|H].
  - apply Nat.leb_gt in H. apply orb_true_iff. left. now apply Nat.ltb_lt.
  - rewrite H. apply orb_true_r.
Qed.

Lemma Parse_not_flag f actual s rest w :
  looks_like_flag s = false ->
  Flag.Parse_from f actual (s :: rest) w = Returns (actual, s :: rest) w.
Proof.
  intros H. cbn [Flag.Parse_from]. now rewrite parseOne_not_flag.
Qed.

(** What is left of the arguments, and what is printed, does not depend
    on the values the flags had. *)
Lemma Parse_from_actual f args : forall a1 a2 w,
  match Flag.Parse_from f a1 args w, Flag.Parse_from f a2 args w with
  | Returns r1 w1, Returns r2 w2 => snd r1 = snd r2 /\ w1 = w2
  | Exits c1 w1, Exits c2 w2 => c1 = c2 /\ w1 = w2
  | Panics w1, Panics w2 => w1 = w2
  | _, _ => False
  end.
Proof.
  induction args as [|s args IH]; intros a1 a2 w; [now split|].
  cbn [Flag.Parse_from]. destruct (Flag.parseOne f s); try (now split).
  apply IH.
Qed.

Lemma catFile_pprint p1 p2 args w : catFile p1 args w = catFile p2 args w.
Proof. reflexivity. Qed.

Lemma hashObject_dry args w :
  files (world_of (hashObject false args w)) = files w.
Proof.
  destruct args as [|file rest]; [reflexivity|].
  unfold hashObject, bind, checked, ret, os_ReadFile, head.
  destruct (FS.read (files w) file) as [[op e]|c]; reflexivity.
Qed.

(** Parsing the flags prints on the standard error only. *)
Lemma Parse_from_quiet f args : forall actual w,
  files (world_of (Flag.Parse_from f actual args w)) = files w
  /\ stdout (world_of (Flag.Parse_from f actual args w)) = stdout w.
Proof.
  induction args as [|s args IH]; intros actual w; [now split|].
  cbn [Flag.Parse_from]. destruct (Flag.parseOne f s); try (now split).
  apply IH.
Qed.

(** X2. [catFile] only reads: whatever its arguments and however it
    ends, also within the parsing of its flags, the files are those it
    started with.  Once the flags are parsed: when it returns, nothing
    went to the standard error; when it exits, the status is 1 and
    nothing went to the standard output; when it panics, nothing was
    printed at all. *)
Theorem catFile_read_only (args : list string) (w : world) :
  files (world_of (catFile_args args w)) = files w
  /\ forall pprint,
       files (world_of (catFile pprint args w)) = files w
       /\ match catFile pprint args w with
          | Returns _ w1 => stderr w1 = stderr w
          | Exits code w1 => code = 1%Z /\ stdout w1 = stdout w
          | Panics w1 => w1 = w
          end.
Proof.
  split; [|intros pprint; apply catFile_body_read_only].
  unfold catFile_args, Flag.Parse, bind.
  pose proof (Parse_from_quiet
                (Flag.NewFlagSet "git cat-file"
                   [("p", "pretty-print the contents of <object> based on its type")])
                args ∅ w) as [Hfiles _].
  destruct (Flag.Parse_from _ ∅ args w) as [[v r] w1|code w1|w1];
    cbn [world_of fst snd] in *; try exact Hfiles.
  rewrite <- Hfiles. apply catFile_body_read_only.
Qed.

Lemma main_command program command commandArgs w :
  looks_like_flag command = false ->
  main program (command :: commandArgs) w
  = (if String.eqb command "init" then initCmd w
     else if String.eqb command "cat-file" then catFile_args commandArgs w
     else if String.eqb command "hash-object"
     then hashObject_args commandArgs w
     else Exits 1 (World (files w) (stdout w)
                     (stderr w ++ "Not yet implemented git command"
                      ++ newline))).
Proof.
  intros H. unfold main, Flag.Parse, bind. rewrite Parse_not_flag by exact H.
  cbn [snd]. repeat (destruct (String.eqb command _); [reflexivity|]).
  reflexivity.
Qed.

(** X10. [main] hands the arguments after the name of the command to the
    command: when the first argument is no flag, "init" runs [initCmd],
    "cat-file" and "hash-object" run their command on the arguments
    that follow, and any other name ends with status 1 after the
    message "Not yet implemented git command", the files untouched;
    without arguments [main] prints its usage line and ends with
    status 1. *)
Theorem main_dispatch
    (program command : string) (commandArgs : list string) (w : world) :
  looks_like_flag command = false ->
  (command = "init" -> main program (command :: commandArgs) w = initCmd w)
  /\ (command = "cat-file" ->
      main program (command :: commandArgs) w = catFile_args commandArgs w)
  /\ (command = "hash-object" ->
      main program (command :: commandArgs) w = hashObject_args commandArgs w)
  /\ (command <> "init" -> command <> "cat-file" -> command <> "hash-object" ->
      main program (command :: commandArgs) w
      = Exits 1 (World (files w) (stdout w)
                   (stderr w ++ "Not yet implemented git command" ++ newline)))
  /\ main program [] w
     = Exits 1 (World (files w) (stdout w)
                  (stderr w ++ "usage: git <command> [<args..]" ++ newline)).
Proof.
  intros H. rewrite (main_command program command commandArgs w H).
  repeat split.
  - now intros ->.
  - now intros ->.
  - now intros ->.
  - intros H1 H2 H3.
    apply String.eqb_neq in H1, H2, H3. now rewrite H1, H2, H3.
Qed.

(** X11. The flag [-p] changes nothing: [catFile] with [-p] in front of
    its arguments ends as it does without, with the same files and the
    same output. *)
Theorem catFile_p_optional (args : list string) (w : world) :
  catFile_args ("-p" :: args) w = catFile_args args w.
Proof.
  unfold catFile_args, Flag.Parse, bind.
  change (Flag.Parse_from ?f ∅ ("-p" :: args) w)
    with (Flag.Parse_from f (<["p" := true]> ∅) args w).
  pose proof (Parse_from_actual
                (Flag.NewFlagSet "git cat-file"
                   [("p", "pretty-print the contents of <object> based on its type")])
                args (<["p" := true]> ∅) ∅ w) as H.
  destruct (Flag.Parse_from _ (<["p" := true]> ∅) args w) as [[v1 r1] w1|c1 w1|w1],
           (Flag.Parse_from _ ∅ args w) as [[v2 r2] w2|c2 w2|w2];
    try contradiction.
  - destruct H as [H ->]. cbn [snd fst] in *. subst r2. apply catFile_pprint.
  - destruct H as [-> ->]. reflexivity.
  - now subst.
Qed.

(** X12. A flag after the file name is no flag: [hashObject], called
    with the file name first, runs without [-w] on all its arguments,
    whatever follows the name, and leaves the files as they are. *)
Theorem hashObject_flag_after_file
    (file : string) (rest : list string) (w : world) :
  looks_like_flag file = false ->
  hashObject_args (file :: rest) w = hashObject false (file :: rest) w
  /\ files (world_of (hashObject_args (file :: rest) w)) = files w.
Proof.
  intros H.
  assert (E : hashObject_args (file :: rest) w
              = hashObject false (file :: rest) w).
  { unfold hashObject_args, Flag.Parse, bind.
    rewrite Parse_not_flag by exact H. reflexivity. }
  split; [exact E|]. rewrite E. apply hashObject_dry.
Qed.

End MainTotal.

(** ** From an empty directory to the content printed back *)

Section MainRoundTrip.

Context {zl : Zlib} {laws : ZlibLaws zl} {sc : Strconv}.

Lemma catFile_written pprint rest w c :
  files w !! [".git"] = Some FS.Dir ->
  files w !! [".git"; "objects"] = Some FS.Dir ->
  files w !! shard_dir (sha1Hash (blobContents c)) = Some FS.Dir ->
  files w !! shard_file (sha1Hash (blobContents c))
  = Some (FS.File (deflate (blobContents c))) ->
  catFile pprint (to_string (sha1Hash (blobContents c)) :: rest) w
  = Returns tt (World (files w) (stdout w ++ to_string c) (stderr w)).
Proof.
  intros Hgit Hobj Hdir Hfile.
  destruct (inflate_deflate (blobContents c)) as (zReader & Hnew & Hall).
  destruct (hash_names c) as (Hd & Hf).
  pose proof (sha1Hash_length (blobContents c)) as Hlen.
  unfold shard_file, shard_dir in *. cbn [app] in *.
  erewrite catFile_eval;
    [|rewrite catFile_file_hash, hashObject_file_some by lia; reflexivity].
  rewrite read_object by assumption. rewrite Hfile, Hnew, Hall.
  cbn [fst]. now rewrite strip_header_blobContents.
Qed.

Lemma hex_not_flag s : all_chars is_lower_hex s -> looks_like_flag s = false.
Proof.
  intros H. unfold looks_like_flag. destruct s as [|c s];
    [reflexivity|]. inversion H; subst.
  apply andb_false_iff. right. unfold Flag.byte_is. cbn [String.get].
  apply Ascii.eqb_neq. intros ->. discriminate.
Qed.

(** X13. The three commands in a row: in a directory without [.git],
    with a readable file whose name is no flag, "init", then
    "hash-object -w" on the file, then "cat-file -p" on the identifier
    that was printed all return, and the last one prints exactly the
    content of the file, with nothing on the standard error. *)
Theorem main_round_trip
    (program file : string) (w : world) (c : bytes) :
  no_git (files w) ->
  FS.read (files w) file = inr c ->
  looks_like_flag file = false ->
  exists w1 w2 w3 : world,
    main program ["init"] w = Returns tt w1
    /\ main program ["hash-object"; "-w"; file] w1 = Returns tt w2
    /\ stdout w2
       = (stdout w1 ++ to_string (sha1Hash (blobContents c)) ++ newline)%string
    /\ main program ["cat-file"; "-p"; to_string (sha1Hash (blobContents c))] w2
       = Returns tt w3
    /\ stdout w3 = (stdout w2 ++ to_string c)%string
    /\ stderr w3 = stderr w.
Proof.
  intros Hn Hread Hfile.
  destruct (initCmd_fresh w Hn) as (w1 & Hinit).
  destruct (store_ready_after_init w w1 c Hn Hinit) as (Hready & Hkeep).
  pose proof (proj1 (proj2 (initCmd_returns w w1 Hinit))) as Hout1.
  pose proof (proj1 (proj2 (proj2 (initCmd_returns w w1 Hinit)))) as Herr1.
  pose proof (hashObject_writes file [] w1 c (Hkeep _ _ Hread) Hready) as Hput.
  match type of Hput with _ = Returns tt ?x => set (w2 := x) in * end.
  assert (Hcat : catFile true [to_string (sha1Hash (blobContents c))] w2
                 = Returns tt (World (files w2) (stdout w2 ++ to_string c)
                                 (stderr w2))).
  { destruct Hready as (Hgit & Hobj & _ & _).
    apply catFile_written; subst w2; cbn [files];
      unfold shard_file, shard_dir; cbn [app]; now fs_frame. }
  exists w1, w2, (World (files w2) (stdout w2 ++ to_string c) (stderr w2)).
  split; [|split; [|split; [|split; [|split]]]].
  - rewrite main_command by reflexivity. exact Hinit.
  - rewrite main_command by reflexivity. simpl (String.eqb _ _).
    unfold hashObject_args, Flag.Parse, bind.
    change (Flag.Parse_from ?f ∅ ("-w" :: ?r) w1)
      with (Flag.Parse_from f (<["w" := true]> ∅) r w1).
    rewrite Parse_not_flag by exact Hfile. exact Hput.
  - reflexivity.
  - rewrite main_command by reflexivity. simpl (String.eqb _ _).
    unfold catFile_args, Flag.Parse, bind.
    change (Flag.Parse_from ?f ∅ ("-p" :: ?r) w2)
      with (Flag.Parse_from f (<["p" := true]> ∅) r w2).
    rewrite Parse_not_flag by (apply hex_not_flag, sha1Hash_hex).
    exact Hcat.
  - reflexivity.
  - cbn [stderr]. subst w2. cbn [stderr]. exact Herr1.
Qed.

End MainRoundTrip.

(** ** The identifier and the digest; an object that is not there *)

Section Identifier.

Context {zl : Zlib}.

Implicit Types fs : gmap FS.path FS.node.

Lemma hex_bytes_Sprintf_x b : hex_bytes (Sprintf_x b) = map Byte.to_N b.
Proof.
  induction b as [|c b IH]; [reflexivity|].
  cbn [Sprintf_x hex_bytes map]. rewrite IH. f_equal.
  apply (hex_digits_of_byte c).
Qed.

Lemma to_N_inj (a b : list byte) : map Byte.to_N a = map Byte.to_N b -> a = b.
Proof.
  revert b; induction a as [|x a IH]; intros [|y b] H; try discriminate;
    [reflexivity|].
  cbn [map] in H. injection H as Hxy Hab. f_equal; [|now apply IH].
  pose proof (Byte.of_to_N x) as Hx. rewrite Hxy, Byte.of_to_N in Hx.
  congruence.
Qed.

(** X14. The identifier is the digest, digit for digit: the 20 bytes of
    the digest are read back from the 40 characters, so two texts have
    the same identifier exactly when they have the same digest. *)
Theorem identifier_is_digest (text text' : bytes) :
  hex_bytes (to_string (sha1Hash text)) = map Byte.to_N (SHA1.Sum text)
  /\ (sha1Hash text = sha1Hash text' <-> SHA1.Sum text = SHA1.Sum text').
Proof.
  assert (H : forall t, hex_bytes (to_string (sha1Hash t))
                        = map Byte.to_N (SHA1.Sum t))
    by (intros t; rewrite sha1Hash_to_string; apply hex_bytes_Sprintf_x).
  split; [apply H|]. split.
  - intros E. apply to_N_inj. rewrite <- !H. now rewrite E.
  - intros E. unfold sha1Hash. now rewrite E.
Qed.

Lemma read_object_total fs dir filename :
  plain_name dir -> plain_name filename ->
  fs !! [".git"] = Some FS.Dir ->
  fs !! [".git"; "objects"] = Some FS.Dir ->
  FS.read fs (object_file dir filename)
  = match fs !! [".git"; "objects"; dir] with
    | Some FS.Dir =>
        match fs !! [".git"; "objects"; dir; filename] with
        | None => inl ("open", FS.ENOENT)
        | Some FS.Dir => inl ("read", FS.EISDIR)
        | Some (FS.File content) => inr content
        end
    | Some (FS.File _) => inl ("open", FS.ENOTDIR)
    | None => inl ("open", FS.ENOENT)
    end.
Proof.
  intros Hd Hf Hgit Hobj.
  destruct (fs !! [".git"; "objects"; dir]) as [[|?]|] eqn:Hdir;
    [now apply read_object|..];
    unfold FS.read;
    rewrite object_file_not_empty, components_object_file
      by (apply Hd || apply Hf);
    walk_any; reflexivity.
Qed.

(** X15. An object that was never written: in a store that is laid out,
    for an identifier of 40 hexadecimal digits with no entry at its
    file (its directory missing, or there without the file), [catFile]
    prints nothing, says "Failed to read '<file>': open <file>: no such
    file or directory" and exits with status 1. *)
Theorem catFile_missing_object
    (pprint : bool) (identifier : string) (rest : list string) (w : world) :
  String.length identifier = 40%nat ->
  all_chars is_lower_hex identifier ->
  files w !! [".git"] = Some FS.Dir ->
  files w !! [".git"; "objects"] = Some FS.Dir ->
  files w !! shard_dir (of_string identifier) = None
  \/ (files w !! shard_dir (of_string identifier) = Some FS.Dir
      /\ files w !! shard_file (of_string identifier) = None) ->
  exists file,
    catFile_file identifier = Some file
    /\ catFile pprint (identifier :: rest) w
       = Exits 1 (World (files w) (stdout w)
                    (stderr w ++ ("Failed to read '" ++ file ++ "': open "
                                  ++ file ++ ": no such file or directory")
                     ++ newline)).
Proof.
  intros Hlen Hhex Hgit Hobj Hmiss.
  assert (Hl : length (of_string identifier) = 40%nat)
    by now rewrite length_of_string.
  assert (Hd : plain_name (to_string (firstn 2 (of_string identifier)))).
  { apply hex_plain.
    - rewrite to_string_firstn, to_of_string. now apply all_chars_substring.
    - apply (length_not_empty _ 1).
      rewrite length_to_string, length_firstn. lia. }
  assert (Hf : plain_name (to_string (skipn 2 (of_string identifier)))).
  { apply hex_plain.
    - rewrite to_string_skipn, to_of_string by lia.
      now apply all_chars_substring.
    - apply (length_not_empty _ 37).
      rewrite length_to_string, length_skipn. lia. }
  assert (Hfile : catFile_file identifier
                  = Some (object_file
                            (to_string (firstn 2 (of_string identifier)))
                            (to_string (skipn 2 (of_string identifier))))).
  { rewrite <- (to_of_string identifier) at 1.
    rewrite catFile_file_hash, hashObject_file_some by lia. reflexivity. }
  eexists. split; [exact Hfile|].
  rewrite (catFile_eval _ _ _ _ _ Hfile).
  rewrite read_object_total by assumption.
  unfold shard_file, shard_dir in Hmiss. cbn [app] in Hmiss.
  destruct Hmiss as [Hm | [Hm1 Hm2]].
  - rewrite Hm. reflexivity.
  - rewrite Hm1, Hm2. reflexivity.
Qed.

End Identifier.

(** ** The further properties on concrete files *)

Section FurtherExamples.

Local Existing Instance stored_zlib.
Local Existing Instance plain_quote.

Lemma catFile_two_bytes_witness :
  exists msg,
    catFile true ["0a"] (world_of (initCmd fresh_world))
    = Exits 1 (World (files (world_of (initCmd fresh_world)))
                 (stdout (world_of (initCmd fresh_world)))
                 (stderr (world_of (initCmd fresh_world)) ++ msg ++ newline)).
Proof.
  apply (catFile_two_bytes true "0a" []
           (world_of (initCmd fresh_world))).
  reflexivity.
Defined.

Lemma hashObject_frame_witness :
  files (world_of (hashObject false ["hello.txt"]
                     (repository_with "hello.txt" (of_string "what is up, doc?"))))
  = files (repository_with "hello.txt" (of_string "what is up, doc?")).
Proof.
  destruct (hashObject_frame false "hello.txt" []
              (repository_with "hello.txt" (of_string "what is up, doc?"))
              (of_string "what is up, doc?"))
    as (_ & _ & _ & H).
  - vm_compute. reflexivity.
  - apply H. reflexivity.
Defined.

Lemma hashObject_again_witness :
  exists w1,
    hashObject true ["hello.txt"]
      (repository_with "hello.txt" (of_string "what is up, doc?"))
    = Returns tt w1
    /\ store_ready (files w1)
         (sha1Hash (blobContents (of_string "what is up, doc?"))).
Proof.
  destruct (hashObject_again "hello.txt" "hello.txt" [] []
              (repository_with "hello.txt" (of_string "what is up, doc?"))
              (of_string "what is up, doc?"))
    as (w1 & H1 & H2 & _).
  - vm_compute. reflexivity.
  - unfold store_ready. split; [|split; [|split]].
    + vm_compute. reflexivity.
    + vm_compute. reflexivity.
    + left. vm_compute. reflexivity.
    + vm_compute. discriminate.
  - exists w1. split; assumption.
Defined.

Lemma hashObject_needs_store_witness :
  exists w1,
    hashObject true ["hello.txt"]
      (World {[ ["hello.txt"] := FS.File (of_string "what is up, doc?") ]} "" "")
    = Exits 1 w1.
Proof.
  destruct (hashObject_needs_store "hello.txt" []
              (World {[ ["hello.txt"]
                        := FS.File (of_string "what is up, doc?") ]} "" "")
              (of_string "what is up, doc?"))
    as [(Hready & _) | (_ & w1 & msg & H & _)].
  - vm_compute. reflexivity.
  - destruct Hready as (Hgit & _). vm_compute in Hgit. discriminate.
  - exists w1. exact H.
Defined.

Lemma main_dispatch_witness :
  main "mygit" ["status"] fresh_world
  = Exits 1 (World (files fresh_world) (stdout fresh_world)
               (stderr fresh_world ++ "Not yet implemented git command"
                ++ newline)).
Proof.
  apply (main_dispatch "mygit" "status" [] fresh_world).
  - reflexivity.
  - discriminate.
  - discriminate.
  - discriminate.
Defined.

Lemma hashObject_flag_after_file_witness :
  files (world_of (hashObject_args ["hello.txt"; "-w"]
                     (repository_with "hello.txt" (of_string "what is up, doc?"))))
  = files (repository_with "hello.txt" (of_string "what is up, doc?")).
Proof.
  apply (hashObject_flag_after_file "hello.txt" ["-w"]
           (repository_with "hello.txt" (of_string "what is up, doc?"))).
  reflexivity.
Defined.

Lemma main_round_trip_witness :
  exists w1 w2 w3 : world,
    main "mygit" ["init"]
      (World {[ ["hello.txt"] := FS.File (of_string "what is up, doc?") ]} "" "")
    = Returns tt w1
    /\ main "mygit" ["hash-object"; "-w"; "hello.txt"] w1 = Returns tt w2
    /\ main "mygit"
         ["cat-file"; "-p";
          to_string (sha1Hash (blobContents (of_string "what is up, doc?")))]
         w2
       = Returns tt w3
    /\ stdout w3 = (stdout w2 ++ "what is up, doc?")%string.
Proof.
  destruct (main_round_trip (laws := stored_laws) "mygit" "hello.txt"
              (World {[ ["hello.txt"]
                        := FS.File (of_string "what is up, doc?") ]} "" "")
              (of_string "what is up, doc?"))
    as (w1 & w2 & w3 & H1 & H2 & _ & H3 & H4 & _).
  - intros p. apply lookup_singleton_ne. discriminate.
  - vm_compute. reflexivity.
  - reflexivity.
  - exists w1, w2, w3. repeat split; assumption.
Defined.

Lemma catFile_missing_object_witness :
  exists file,
    catFile_file "0a5159e4fd9efdc3530c880fa15b672f08d47421" = Some file
    /\ catFile true ["0a5159e4fd9efdc3530c880fa15b672f08d47421"]
         (world_of (initCmd fresh_world))
       = Exits 1 (World (files (world_of (initCmd fresh_world)))
                    (stdout (world_of (initCmd fresh_world)))
                    (stderr (world_of (initCmd fresh_world))
                     ++ ("Failed to read '" ++ file ++ "': open "
                         ++ file ++ ": no such file or directory")
                     ++ newline)).
Proof.
  apply (catFile_missing_object true
           "0a5159e4fd9efdc3530c880fa15b672f08d47421" []
           (world_of (initCmd fresh_world))).
  - reflexivity.
  - repeat constructor.
  - vm_compute. reflexivity.
  - vm_compute. reflexivity.
  - left. vm_compute. reflexivity.
Defined.

End FurtherExamples.
